(** * CaseComp admin tool: the bulk paste / validate / submit pipeline

    A shallow embedding of the TypeScript sources of [casecomp-admin]:

    - [lib/utils.ts]: [applyDefaults], [filterUndefined],
      [parseDelimitedText], [validateRow], [isValidUrl], [isValidNumber],
      [toNumber];
    - [components/PasteTable.tsx]: the [handleParse] of the paste box;
    - [lib/supabase.ts]: the foreign-key resolvers;
    - [app/competitions/bulk/page.tsx]: [HEADERS], [REQUIRED_FIELDS],
      [TYPE_VALIDATIONS], [handleParse], [submitRow], [handleSubmitValid];
    - [lib/gpt.ts] and [app/api/gpt-shorten/route.ts]: the [POST] handler.

    JavaScript objects used as records are finite maps from property names
    to values; a property can be present and hold [undefined], which is
    what [filterUndefined] is about.  Strings are sequences of code units;
    the model keeps the code units below 256. *)

From Stdlib Require Import Floats String Ascii NArith List Bool Lia.
From stdpp Require Import base option list gmap strings fin_maps.

Open Scope string_scope.

Set Warnings "-register-all".

(* ===================================================================== *)
(** ** JavaScript values and the string primitives the sources call       *)
(* ===================================================================== *)

Module JS.

(** The values a row, a payload or a JSON body can hold.  Arrays only
    occur as the [tags] list that [submitRow] builds, so their items are
    strings. *)
Inductive value : Type :=
| VUndefined
| VNull
| VBool (b : bool)
| VNum (x : float)
| VStr (s : string)
| VArr (items : list string).

(** A plain object: property name to value. *)
Abbreviation obj := (gmap string value).

(** [o[k]]: a missing property reads as [undefined]. *)
Definition get (o : obj) (k : string) : value :=
  match o !! k with
  | Some v => v
  | None => VUndefined
  end.

Definition is_undefined (v : value) : bool :=
  match v with VUndefined => true | _ => false end.

Definition is_null (v : value) : bool :=
  match v with VNull => true | _ => false end.

Definition is_empty (s : string) : bool :=
  match s with EmptyString => true | String _ _ => false end.

(** [v === ''] *)
Definition is_empty_string (v : value) : bool :=
  match v with VStr s => is_empty s | _ => false end.

(** ToBoolean: what [!v] negates. *)
Definition truthy (v : value) : bool :=
  match v with
  | VUndefined | VNull => false
  | VBool b => b
  | VNum x => negb (PrimFloat.is_zero x || PrimFloat.is_nan x)
  | VStr s => negb (is_empty s)
  | VArr _ => true
  end.

Definition TAB : ascii := "009"%char.
Definition LF : ascii := "010"%char.
Definition CR : ascii := "013"%char.
Definition COMMA : ascii := ","%char.
Definition COLON : ascii := ":"%char.

(** WhiteSpace and LineTerminator code units below 256: TAB, LF, VT, FF,
    CR, SP, NBSP. *)
Definition is_white_space (c : ascii) : bool :=
  let n := N_of_ascii c in
  ((9 <=? n) && (n <=? 13) || (n =? 32) || (n =? 160))%N.

(** [String.prototype.trimStart] *)
Fixpoint trimStart (s : string) : string :=
  match s with
  | EmptyString => EmptyString
  | String c rest => if is_white_space c then trimStart rest else s
  end.

(** [String.prototype.trimEnd] *)
Fixpoint trimEnd (s : string) : string :=
  match s with
  | EmptyString => EmptyString
  | String c rest =>
      let r := trimEnd rest in
      if is_white_space c && is_empty r then EmptyString else String c r
  end.

(** [String.prototype.trim] *)
Definition trim (s : string) : string := trimEnd (trimStart s).

(** [s.split(sep)] for a separator of one code unit: always at least one
    piece, and [n] occurrences of [sep] give [n + 1] pieces. *)
Fixpoint split (sep : ascii) (s : string) : list string :=
  match s with
  | EmptyString => [EmptyString]
  | String c rest =>
      if Ascii.eqb c sep then EmptyString :: split sep rest
      else match split sep rest with
           | piece :: pieces => String c piece :: pieces
           | [] => [String c EmptyString]
           end
  end.

(** [s.includes(c)] for a needle of one code unit. *)
Fixpoint includes (c : ascii) (s : string) : bool :=
  match s with
  | EmptyString => false
  | String d rest => Ascii.eqb d c || includes c rest
  end.

(** [items.join(sep)] *)
Fixpoint join (sep : string) (items : list string) : string :=
  match items with
  | [] => EmptyString
  | [x] => x
  | x :: rest => x ++ sep ++ join sep rest
  end.

(** *** The scheme prefix of the URL parser behind [new URL(s)]

    [new URL(s)] is called without a base.  The parser strips leading
    and trailing C0 controls and spaces, drops every tab and newline, and
    reads a scheme: a letter, then letters, digits, [+], [-] or [.], up to
    a colon.  Without a scheme and without a base it fails, and the
    constructor throws. *)

Definition is_c0_or_space (c : ascii) : bool := (N_of_ascii c <=? 32)%N.

Fixpoint strip_c0_start (s : string) : string :=
  match s with
  | EmptyString => EmptyString
  | String c rest => if is_c0_or_space c then strip_c0_start rest else s
  end.

Fixpoint strip_c0_end (s : string) : string :=
  match s with
  | EmptyString => EmptyString
  | String c rest =>
      let r := strip_c0_end rest in
      if is_c0_or_space c && is_empty r then EmptyString else String c r
  end.

Definition is_tab_or_newline (c : ascii) : bool :=
  Ascii.eqb c TAB || Ascii.eqb c LF || Ascii.eqb c CR.

Fixpoint remove_tab_newline (s : string) : string :=
  match s with
  | EmptyString => EmptyString
  | String c rest =>
      if is_tab_or_newline c then remove_tab_newline rest
      else String c (remove_tab_newline rest)
  end.

Definition is_upper (c : ascii) : bool :=
  let n := N_of_ascii c in ((65 <=? n) && (n <=? 90))%N.
Definition is_lower (c : ascii) : bool :=
  let n := N_of_ascii c in ((97 <=? n) && (n <=? 122))%N.
Definition is_digit (c : ascii) : bool :=
  let n := N_of_ascii c in ((48 <=? n) && (n <=? 57))%N.
Definition is_alpha (c : ascii) : bool := is_upper c || is_lower c.

Definition to_lower (c : ascii) : ascii :=
  if is_upper c then ascii_of_N (N_of_ascii c + 32) else c.

(** [s.toLowerCase()] on the code units below 128. *)
Fixpoint toLowerCase (s : string) : string :=
  match s with
  | EmptyString => EmptyString
  | String c rest => String (to_lower c) (toLowerCase rest)
  end.

Definition is_scheme_char (c : ascii) : bool :=
  is_alpha c || is_digit c
  || Ascii.eqb c "+"%char || Ascii.eqb c "-"%char || Ascii.eqb c "."%char.

(** The scheme state: [Some (scheme, rest)] at the colon, [None] when the
    input ends or another code unit comes first. *)
Fixpoint scheme_state (s : string) : option (string * string) :=
  match s with
  | EmptyString => None
  | String c rest =>
      if Ascii.eqb c COLON then Some (EmptyString, rest)
      else if is_scheme_char c then
        match scheme_state rest with
        | Some (scheme, tail) => Some (String (to_lower c) scheme, tail)
        | None => None
        end
      else None
  end.

(** The scheme start state. *)
Definition parse_scheme (input : string) : option (string * string) :=
  match remove_tab_newline (strip_c0_end (strip_c0_start input)) with
  | EmptyString => None
  | String c rest =>
      if is_alpha c then
        match scheme_state rest with
        | Some (scheme, tail) => Some (String (to_lower c) scheme, tail)
        | None => None
        end
      else None
  end.

(** *** Parsed JSON, as [req.json()] resolves to *)

Inductive json : Type :=
| JNull
| JBool (b : bool)
| JNumber (x : float)
| JString (s : string)
| JArray (items : list json)
| JObject (members : list (string * json)).

(** The members are in the order of the text; a repeated name keeps its
    last value. *)
Fixpoint member (k : string) (members : list (string * json))
    : option json :=
  match members with
  | [] => None
  | (k', v) :: rest =>
      match member k rest with
      | Some later => Some later
      | None => if String.eqb k' k then Some v else None
      end
  end.

(** ToBoolean of a JSON value or of [undefined] ([None]). *)
Definition json_truthy (v : option json) : bool :=
  match v with
  | None | Some JNull => false
  | Some (JBool b) => b
  | Some (JNumber x) => negb (PrimFloat.is_zero x || PrimFloat.is_nan x)
  | Some (JString s) => negb (is_empty s)
  | Some (JArray _) | Some (JObject _) => true
  end.

(** What the runtime provides and the sources only call. *)
Class Platform : Type := {
  (** [Number(s)] on a string. *)
  StringToNumber : string -> float;
  (** [String(x)] on a number. *)
  NumberToString : float -> string;
  (** The URL parser after the scheme: does the rest parse? *)
  url_rest_parses : string -> string -> bool;
}.

Section WithPlatform.
Context `{Platform}.

(** ToString, as [new URL(v)], a template string and the query builder
    apply it. *)
Definition ToString (v : value) : string :=
  match v with
  | VUndefined => "undefined"
  | VNull => "null"
  | VBool true => "true"
  | VBool false => "false"
  | VNum x => NumberToString x
  | VStr s => s
  | VArr items => join "," items
  end.

(** [new URL(s).protocol], or [None] when the constructor throws. *)
Definition URL_protocol (s : string) : option string :=
  match parse_scheme s with
  | None => None
  | Some (scheme, rest) =>
      if url_rest_parses scheme rest then Some (scheme ++ ":") else None
  end.
End WithPlatform.

End JS.

Import JS.

(* ===================================================================== *)
(** ** lib/utils.ts                                                       *)
(* ===================================================================== *)

Module Utils.

(** Remove undefined values from an object. *)
Definition filterUndefined (o : obj) : obj :=
  filter (λ kv : string * value, is_undefined kv.2 = false) o.

(** [{ ...defaults, ...filterUndefined(data) }]: the later spread wins. *)
Definition applyDefaults (data defaults : obj) : obj :=
  filterUndefined data ∪ defaults.

(** [row[header] = value] on an object made by [{}], for a value that is
    a string or undefined.  Every name but one becomes (or stays) an own
    property.  The name [__proto__] is an accessor that the object
    inherits: its setter takes the assignment, ignores a value that is
    neither an object nor null, and the object gets no property. *)
Definition assign (header : string) (v : value) (row : obj) : obj :=
  if String.eqb header "__proto__" then row else <[header := v]> row.

(** The body of [headers.forEach((header, index) => ...)]. *)
Fixpoint forEach_header (values headers : list string) (index : nat)
    (row : obj) : obj :=
  match headers with
  | [] => row
  | header :: rest =>
      let row' :=
        match values !! index with
        | Some raw =>
            let value := trim raw in
            assign header (if is_empty value then VUndefined else VStr value)
              row
        | None => row
        end in
      forEach_header values rest (S index) row'
  end.

(** The callback of [lines.map(line => ...)]. *)
Definition parse_line (separator : ascii) (headers : list string)
    (line : string) : obj :=
  forEach_header (split separator line) headers 0 ∅.

Definition trimmed_lines (text : string) : list string :=
  List.filter (λ line, negb (is_empty line)) (map trim (split LF text)).

Definition detect_separator (firstLine : string) : ascii :=
  if includes TAB firstLine then TAB else COMMA.

(** Parse CSV or TSV string into array of objects. *)
Definition parseDelimitedText (text : string) (headers : list string)
    : list obj :=
  if is_empty (trim text) then []
  else
    let lines := trimmed_lines text in
    match lines with
    | [] => []
    | firstLine :: _ =>
        let separator := detect_separator firstLine in
        map (parse_line separator headers) lines
    end.

(** The result of [validateRow]. *)
Record validation : Type := { isValid : bool; errors : list string }.

(** [row[field] === undefined || row[field] === null || row[field] === ''] *)
Definition is_missing (v : value) : bool :=
  is_undefined v || is_null v || is_empty_string v.

(** The loop over [requiredFields]; [errors.push] appends. *)
Fixpoint check_required (row : obj) (requiredFields : list string)
    (errors : list string) : list string :=
  match requiredFields with
  | [] => errors
  | field :: rest =>
      check_required row rest
        (if is_missing (get row field)
         then errors ++ ["Missing required field: " ++ field]
         else errors)
  end.

(** [typeValidations], as [Object.entries] lists it: a property can be
    present without a validator. *)
Abbreviation validators := (list (string * option (value -> bool))).

(** The loop over [Object.entries(typeValidations)].  Next to the error
    list it records every call of a validator, with the field and the
    argument, in call order: the [&&] chain calls the validator only
    after the two tests on [row[field]] and the test on the validator
    itself have passed. *)
Fixpoint check_types (row : obj) (entries : validators)
    (errors : list string) (calls : list (string * value))
    : list string * list (string * value) :=
  match entries with
  | [] => (errors, calls)
  | (field, validator) :: rest =>
      let v := get row field in
      if is_undefined v then check_types row rest errors calls
      else if is_null v then check_types row rest errors calls
      else match validator with
           | None => check_types row rest errors calls
           | Some check =>
               check_types row rest
                 (if check v then errors
                  else errors ++ ["Invalid value for field: " ++ field])
                 (calls ++ [(field, v)])
           end
  end.

Definition validateRow_run (row : obj) (requiredFields : list string)
    (typeValidations : validators)
    : list string * list (string * value) :=
  check_types row typeValidations (check_required row requiredFields []) [].

(** Validate a row against a schema. *)
Definition validateRow (row : obj) (requiredFields : list string)
    (typeValidations : validators) : validation :=
  let errors := fst (validateRow_run row requiredFields typeValidations) in
  {| isValid := Nat.eqb (length errors) 0; errors := errors |}.

(** The validator calls [validateRow] makes, in order. *)
Definition validator_calls (row : obj) (requiredFields : list string)
    (typeValidations : validators) : list (string * value) :=
  snd (validateRow_run row requiredFields typeValidations).

Section WithPlatform.
Context `{Platform}.

(** Check if a string is a valid URL.  Callers pass values of type
    [any]; [new URL] converts its argument to a string. *)
Definition isValidUrl (urlString : value) : bool :=
  match URL_protocol (ToString urlString) with
  | Some protocol =>
      String.eqb protocol "http:" || String.eqb protocol "https:"
  | None => false
  end.

(** Check if a value is a valid number. *)
Definition isValidNumber (v : value) : bool :=
  match v with
  | VNum x => negb (PrimFloat.is_nan x)
  | VStr s => negb (PrimFloat.is_nan (StringToNumber s))
  | _ => false
  end.

(** Convert a value to a number: a number, or [undefined]. *)
Definition toNumber (v : value) : value :=
  match v with
  | VNum x => VNum x
  | VStr s =>
      let num := StringToNumber s in
      if PrimFloat.is_nan num then VUndefined else VNum num
  | _ => VUndefined
  end.
End WithPlatform.

(** Check if a value is a valid boolean. *)
Definition isValidBoolean (v : value) : bool :=
  match v with
  | VBool _ => true
  | VStr s => String.eqb s "true" || String.eqb s "false"
  | _ => false
  end.

(** Convert a value to a boolean.  Whether the lowered string is "true"
    only depends on its letters A to Z. *)
Definition toBoolean (v : value) : bool :=
  match v with
  | VBool b => b
  | VStr s => String.eqb (toLowerCase s) "true"
  | _ => truthy v
  end.

End Utils.

(* ===================================================================== *)
(** ** Awaited calls: state, results and thrown errors                    *)
(* ===================================================================== *)

Module Async.

(** What a [catch] clause receives: an [Error] object with its message,
    or any other thrown value. *)
Inductive exn : Type :=
| ErrorObject (message : string)
| ThrownValue (v : value).

Inductive outcome (A : Type) : Type :=
| Returned (a : A)
| Thrown (e : exn).
Arguments Returned {A} a.
Arguments Thrown {A} e.

(** An async function over a state [S]: every [await] is a step that
    runs to completion before the next statement. *)
Definition M (S A : Type) : Type := S -> outcome A * S.

Definition ret {S A} (a : A) : M S A := fun s => (Returned a, s).

Definition throw {S A} (e : exn) : M S A := fun s => (Thrown e, s).

Definition bind {S A B} (c : M S A) (k : A -> M S B) : M S B :=
  fun s =>
    match c s with
    | (Returned a, s') => k a s'
    | (Thrown e, s') => (Thrown e, s')
    end.

(** [try { c } catch (error) { handler }] *)
Definition try_catch {S A} (c : M S A) (handler : exn -> M S A) : M S A :=
  fun s =>
    match c s with
    | (Returned a, s') => (Returned a, s')
    | (Thrown e, s') => handler e s'
    end.

(** Run [c] on a part of the state. *)
Definition zoom {S T A} (proj : S -> T) (upd : T -> S -> S) (c : M T A)
    : M S A :=
  fun s => let (r, t') := c (proj s) in (r, upd t' s).

Declare Scope async_scope.
Delimit Scope async_scope with async.
Notation "x <~ c ;; k" := (bind c (fun x => k))
  (at level 100, c at next level, right associativity) : async_scope.
Notation "c ;;; k" := (bind c (fun _ => k))
  (at level 100, right associativity) : async_scope.

End Async.

Import Async.

(* ===================================================================== *)
(** ** lib/utils.ts: dates                                                *)
(* ===================================================================== *)

Module UtilsDates.

(** What the runtime's [Date] provides. *)
Class DateRuntime : Type := {
  (** [new Date(s).getTime()]: the time value, NaN for an invalid date. *)
  time_of_string : string -> float;
  (** [d.toISOString()] for a date of time value [t]; the runtime throws a
      RangeError for an invalid date. *)
  toISOString : float -> outcome string;
}.

(** [Date | string | undefined | null], a [Date] by its time value. *)
Inductive date_input : Type :=
| DateUndefined
| DateNull
| DateString (s : string)
| DateObject (t : float).

Section WithDates.
Context `{DateRuntime}.

(** Format a date as a string or return an empty string. *)
Definition formatDate (date : date_input) : outcome string :=
  match date with
  | DateUndefined | DateNull => Returned EmptyString
  | DateString s =>
      if is_empty s then Returned EmptyString
      else
        let t := time_of_string s in
        if PrimFloat.is_nan t then Returned EmptyString else toISOString t
  | DateObject t =>
      if PrimFloat.is_nan t then Returned EmptyString else toISOString t
  end.

(** Check if a string is a valid date. *)
Definition isValidDate (dateString : string) : bool :=
  negb (PrimFloat.is_nan (time_of_string dateString)).
End WithDates.

End UtilsDates.

(* ===================================================================== *)
(** ** lib/types.ts                                                       *)
(* ===================================================================== *)

Module Types.

(** ['success' | 'error' | 'skipped'] *)
Inductive log_status : Type := Success | Error | Skipped.

Record LogEntry : Type := {
  rowIndex : nat;
  status : log_status;
  timestamp : string;
  message : option string;
  payload : option obj;
}.

End Types.

(* ===================================================================== *)
(** ** lib/supabase.ts                                                    *)
(* ===================================================================== *)

Module Supabase.

(** The hosted services the page awaits, over a world [W] that the
    sources cannot see into. *)
Class Backend (W : Type) : Type := {
  (** [await supabase.from(table).select(column).ilike(filter, pattern)
      .single()]: the [data] of the response ([None] for [null]), or a
      rejection. *)
  select_ilike_single :
    string -> string -> string -> string -> W -> outcome (option obj) * W;
  (** [await supabase.from(table).insert(rows)]: the message of the
      [error] of the response ([None] for no error), or a rejection. *)
  insert_into : string -> list obj -> W -> outcome (option string) * W;
  (** [new Date().toISOString()] *)
  now_iso : W -> string * W;
  (** [uuidv4()] *)
  uuidv4 : W -> string * W;
}.

(** [x ?? null] *)
Definition or_null (v : value) : value :=
  match v with
  | VUndefined | VNull => VNull
  | _ => v
  end.

Section WithBackend.
Context `{Platform} {W : Type} `{Backend W}.

Local Open Scope async_scope.

(** The shape the three name resolvers share: [if (!name) return
    null], one query, [data?.column ?? null].  The name is declared a
    string; the caller casts whatever the row holds, and the client writes
    it into the query as a string. *)
Definition resolve_by_name (table column filter : string) (name : value)
    : M W value :=
  if negb (truthy name) then ret VNull
  else
    data <~ select_ilike_single table column filter (ToString name) ;;
    ret (match data with
         | Some o => or_null (get o column)
         | None => VNull
         end).

(** Helper function to resolve universityId from university name. *)
Definition resolveUniversityId (name : value) : M W value :=
  resolve_by_name "university" "id" "name" name.

(** Helper function to resolve organizerId from organizer name. *)
Definition resolveOrganizerId (name : value) : M W value :=
  resolve_by_name "organizer" "orgId" "orgName" name.

(** Helper function to resolve competitionId from competition title. *)
Definition resolveCompetitionId (title : value) : M W value :=
  resolve_by_name "competition" "id" "title" title.
End WithBackend.

(** The query of the two identifier resolvers. *)
Class IdBackend (W : Type) : Type := {
  (** [await supabase.from(table).select(column).eq(filter, value)
      .single()]: the [data] of the response, or a rejection. *)
  select_eq_single :
    string -> string -> string -> string -> W -> outcome (option obj) * W;
}.

Section WithIdBackend.
Context `{Platform} {W : Type} `{IdBackend W}.

Local Open Scope async_scope.

(** The shape the two identifier resolvers share. *)
Definition resolve_by_id (table : string) (id : value) : M W value :=
  if negb (truthy id) then ret VNull
  else
    data <~ select_eq_single table "id" "id" (ToString id) ;;
    ret (match data with
         | Some o => or_null (get o "id")
         | None => VNull
         end).

(** Helper function to resolve timelineId. *)
Definition resolveTimelineId (id : value) : M W value :=
  resolve_by_id "timeline" id.

(** Helper function to resolve historyId. *)
Definition resolveHistoryId (id : value) : M W value :=
  resolve_by_id "history" id.
End WithIdBackend.

End Supabase.

Import Supabase.

(* ===================================================================== *)
(** ** components/PasteTable.tsx                                          *)
(* ===================================================================== *)

Module PasteTable.
Import Utils.

(** The "Parse Data" handler of the paste box: the same steps as
    [parseDelimitedText], on the text of the box.  It hands the rows to
    [onParse] ([Some]), or returns without calling it ([None]). *)
Definition handleParse (inputText : string) (headers : list string)
    : option (list obj) :=
  if is_empty (trim inputText) then None
  else
    let lines := trimmed_lines inputText in
    match lines with
    | [] => None
    | firstLine :: _ =>
        let separator := detect_separator firstLine in
        Some (map (parse_line separator headers) lines)
    end.

Import Types.

(** [log.status === st] *)
Definition status_is (st : log_status) (log : LogEntry) : bool :=
  match status log, st with
  | Success, Success | Error, Error | Skipped, Skipped => true
  | _, _ => false
  end.

(** The three counters at the top of [LogList]. *)
Record counters : Type := {
  successCount : nat;
  errorCount : nat;
  skippedCount : nat;
}.

(** [logs.filter((log) => log.status === ...).length], three times. *)
Definition LogList_counters (logs : list LogEntry) : counters :=
  {| successCount := length (List.filter (status_is Success) logs);
     errorCount := length (List.filter (status_is Error) logs);
     skippedCount := length (List.filter (status_is Skipped) logs) |}.

End PasteTable.

(* ===================================================================== *)
(** ** app/competitions/bulk/page.tsx                                     *)
(* ===================================================================== *)

Module BulkPage.
Import Utils Types.

(** Headers for the bulk paste input. *)
Definition HEADERS : list string :=
  [ "title"; "shortDescription"; "longDescription"; "format"; "category";
    "tags"; "prizeAmount"; "shortPrizeInfo"; "registrationFee";
    "registrationInfo"; "eligibilityInfo"; "lastDayToRegister"; "city";
    "state"; "country"; "websiteUrl"; "competitionImageUrl"; "teamSizeMin";
    "teamSizeMax"; "universityName"; "organizerName" ].

(** Default values for new competitions. *)
Definition DEFAULT_VALUES : obj :=
  <["updatedAt" := VStr ""]>
    (<["createdAt" := VStr ""]>
      (<["isConfirmed" := VBool true]>
        (<["isHostedByCaseComp" := VBool false]>
          (<["isFeatured" := VBool false]>
            (<["isInternal" := VBool false]>
              (<["id" := VStr ""]> ∅)))))).

(** Required fields for validation. *)
Definition REQUIRED_FIELDS : list string := ["title"].

(** An entry of [errorRows]. *)
Record error_row : Type := { row : obj; error : string }.

Section WithPlatform.
Context `{Platform}.

(** [(value) => !value || isValidUrl(value)] *)
Definition url_check (v : value) : bool := negb (truthy v) || isValidUrl v.

(** [(value) => !value || isValidNumber(value)] *)
Definition number_check (v : value) : bool :=
  negb (truthy v) || isValidNumber v.

(** Type validations, in property order. *)
Definition TYPE_VALIDATIONS : validators :=
  [ ("websiteUrl", Some url_check);
    ("competitionImageUrl", Some url_check);
    ("prizeAmount", Some number_check);
    ("registrationFee", Some number_check);
    ("teamSizeMin", Some number_check);
    ("teamSizeMax", Some number_check) ].

(** [{ ...row, prizeAmount: toNumber(row.prizeAmount), ... }]: the four
    properties are always present afterwards. *)
Definition convert_types (r : obj) : obj :=
  <["teamSizeMax" := toNumber (get r "teamSizeMax")]>
    (<["teamSizeMin" := toNumber (get r "teamSizeMin")]>
      (<["registrationFee" := toNumber (get r "registrationFee")]>
        (<["prizeAmount" := toNumber (get r "prizeAmount")]> r))).

(** The loop [for (const row of rows)] of [handleParse], with its two
    accumulators. *)
Fixpoint handleParse_loop (rows : list obj) (valid : list obj)
    (errs : list error_row) : list obj * list error_row :=
  match rows with
  | [] => (valid, errs)
  | r :: rest =>
      let processedRow := convert_types r in
      let res := validateRow processedRow REQUIRED_FIELDS TYPE_VALIDATIONS in
      if isValid res
      then handleParse_loop rest (valid ++ [processedRow]) errs
      else handleParse_loop rest valid
             (errs ++ [{| row := processedRow;
                          error := join ", " (errors res) |}])
  end.

(** What [handleParse] leaves in [validRows] and [errorRows]. *)
Definition handleParse (rows : list obj) : list obj * list error_row :=
  handleParse_loop rows [] [].
End WithPlatform.

(** The page state the handlers read and set. *)
Record page (W : Type) : Type := {
  world : W;
  validRows : list obj;
  logs : list LogEntry;
  isSubmitting : bool;
}.
Arguments world {W} p.
Arguments validRows {W} p.
Arguments logs {W} p.
Arguments isSubmitting {W} p.

(** The page with another world. *)
Definition set_world {W} (w : W) (p : page W) : page W :=
  {| world := w; validRows := validRows p; logs := logs p;
     isSubmitting := isSubmitting p |}.

(** The double quote of the success message. *)
Definition DQUOTE : string := String "034"%char EmptyString.

Section Submit.
Context `{Platform} {W : Type} `{Backend W}.

Local Open Scope async_scope.

(** A call that leaves the page and only touches the world. *)
Definition remote {A} (c : M W A) : M (page W) A := zoom world set_world c.

(** A step of the world that cannot throw. *)
Definition effect {A} (f : W -> A * W) : M W A :=
  fun w => let (a, w') := f w in (Returned a, w').

(** Generate a timestamp for createdAt or updatedAt fields. *)
Definition getNow : M W string := effect now_iso.

(** Generate a UUID for ID fields. *)
Definition generateId : M W string := effect uuidv4.

(** [setLogs(prev => [...prev, entry])] *)
Definition setLogs (entry : LogEntry) : M (page W) unit :=
  fun p =>
    (Returned tt,
     {| world := world p; validRows := validRows p;
        logs := (logs p ++ [entry])%list; isSubmitting := isSubmitting p |}).

(** [setIsSubmitting(b)] *)
Definition setIsSubmitting (b : bool) : M (page W) unit :=
  fun p =>
    (Returned tt,
     {| world := world p; validRows := validRows p; logs := logs p;
        isSubmitting := b |}).

(** [setValidRows(rows)] *)
Definition setValidRows (rows : list obj) : M (page W) unit :=
  fun p =>
    (Returned tt,
     {| world := world p; validRows := rows; logs := logs p;
        isSubmitting := isSubmitting p |}).

(** [if (row.name) { payload.field = await resolver(row.name) }] *)
Definition resolve_into (field : string) (resolver : value -> M W value)
    (name : value) (payload : obj) : M (page W) obj :=
  if truthy name then
    id <~ remote (resolver name) ;;
    ret (<[field := id]> payload)
  else ret payload.

(** [if (typeof payload.tags === 'string') payload.tags = ...] *)
Definition clean_tags (payload : obj) : obj :=
  match get payload "tags" with
  | VStr tags => <["tags" := VArr (map trim (split COMMA tags))]> payload
  | _ => payload
  end.

(** The second argument of [applyDefaults] in [submitRow]. *)
Definition submit_defaults (id now : string) : obj :=
  <["updatedAt" := VStr now]>
    (<["createdAt" := VStr now]> (<["id" := VStr id]> DEFAULT_VALUES)).

(** What reaches [insert] when nothing throws before it. *)
Definition clean_payload (payload : obj) : obj :=
  delete "organizerName" (delete "universityName" (clean_tags payload)).

Definition success_entry (rowIndex : nat) (ts : string) (payload : obj)
    : LogEntry :=
  {| rowIndex := rowIndex; status := Success; timestamp := ts;
     message := Some ("Competition " ++ DQUOTE
                      ++ ToString (get payload "title") ++ DQUOTE
                      ++ " inserted successfully");
     payload := None |}.

(** [error instanceof Error ? error.message : 'Unknown error'] *)
Definition error_message (e : exn) : string :=
  match e with
  | ErrorObject message => message
  | ThrownValue _ => "Unknown error"
  end.

Definition error_entry (rowIndex : nat) (ts : string) (e : exn)
    (row : obj) : LogEntry :=
  {| rowIndex := rowIndex; status := Error; timestamp := ts;
     message := Some (error_message e); payload := Some row |}.

(** Submit a row to Supabase. *)
Definition submitRow (row : obj) (rowIndex : nat) : M (page W) bool :=
  try_catch
    (now <~ remote getNow ;;
     id <~ remote generateId ;;
     let payload := applyDefaults row (submit_defaults id now) in
     payload <~ resolve_into "universityId" resolveUniversityId
                  (get row "universityName") payload ;;
     payload <~ resolve_into "organizerId" resolveOrganizerId
                  (get row "organizerName") payload ;;
     let payload := clean_payload payload in
     err <~ remote (insert_into "competition" [payload]) ;;
     match err with
     | Some message => throw (ErrorObject message)
     | None =>
         ts <~ remote getNow ;;
         (setLogs (success_entry rowIndex ts payload) ;;;
          ret true)
     end)
    (fun e =>
       ts <~ remote getNow ;;
       (setLogs (error_entry rowIndex ts e row) ;;;
        ret false)).

(** [for (let i = 0; i < validRows.length; i++) await
    submitRow(validRows[i], i)], from index [i] on. *)
Fixpoint submit_from (rows : list obj) (i : nat) : M (page W) unit :=
  match rows with
  | [] => ret tt
  | row :: rest => (submitRow row i ;;; submit_from rest (S i))
  end.

(** Submit all valid rows. *)
Definition handleSubmitValid : M (page W) unit :=
  fun p =>
    (setIsSubmitting true ;;;
     submit_from (validRows p) 0 ;;;
     setIsSubmitting false ;;;
     setValidRows []) p.
End Submit.

End BulkPage.

(* ===================================================================== *)
(** ** Observing the requests a run sends                                 *)
(* ===================================================================== *)

Module Trace.

Inductive request : Type :=
| ReqSelect (table column filter pattern : string)
| ReqInsert (table : string) (rows : list obj).

Definition is_insert (r : request) : bool :=
  match r with ReqInsert _ _ => true | ReqSelect _ _ _ _ => false end.

(** A backend that also keeps the list of the requests sent to it, in
    order; the answers are those of the backend underneath. *)
Definition traced {W : Type} (B : Backend W) : Backend (W * list request) :=
  {| select_ilike_single table column filter pattern s :=
       let (r, w') := select_ilike_single table column filter pattern s.1 in
       (r, (w', (s.2 ++ [ReqSelect table column filter pattern])%list));
     insert_into table rows s :=
       let (r, w') := insert_into table rows s.1 in
       (r, (w', (s.2 ++ [ReqInsert table rows])%list));
     now_iso s := let (t, w') := now_iso s.1 in (t, (w', s.2));
     uuidv4 s := let (t, w') := uuidv4 s.1 in (t, (w', s.2)) |}.

End Trace.

(* ===================================================================== *)
(** ** The store behind the client                                        *)
(* ===================================================================== *)

Module Store.

(** A store for the examples.  The relational store and the client
    library that queries it are not among the sources; what is proved for
    every backend does not depend on this one.  A store is its tables,
    with the clock and the identifiers the page will draw. *)
Record db : Type := {
  tables : gmap string (list obj);
  clock : string;
  fresh_ids : list string;
}.

(** The rows of a table; a table never written to has none. *)
Definition rows_of (d : db) (table : string) : list obj :=
  match tables d !! table with
  | Some rows => rows
  | None => []
  end.

(** The filter of the lookup on a name without wildcards:
    case-insensitive equality of a column value and the name. *)
Definition matches_name (filter name : string) (r : obj) : bool :=
  match get r filter with
  | VStr s => String.eqb (toLowerCase s) (toLowerCase name)
  | _ => false
  end.

(** The rows of the table the lookup matches. *)
Definition matching (d : db) (table filter name : string) : list obj :=
  List.filter (matches_name filter name) (rows_of d table).

(** [select(column)] keeps that column of the row. *)
Definition project (column : string) (r : obj) : obj :=
  match r !! column with
  | Some v => {[ column := v ]}
  | None => ∅
  end.

(** The [data] of a single-row query on a client that reports a failure
    in the [error] of its response: the one row found, and no row when
    nothing matches or when several rows do. *)
Definition single_row (column : string) (found : list obj) : option obj :=
  match found with
  | [r] => Some (project column r)
  | _ => None
  end.

(** The identifier of [r] is that of a row of the table. *)
Definition taken (d : db) (table : string) (r : obj) : bool :=
  existsb (λ r', match get r "id", get r' "id" with
                 | VStr a, VStr b => String.eqb a b
                 | _, _ => false
                 end)
    (rows_of d table).

(** The message of an insert that is refused. *)
Definition DUPLICATE : string :=
  "duplicate key value violates unique constraint".

(** The store after [rows] were appended to [table]. *)
Definition appended (d : db) (table : string) (rows : list obj) : db :=
  {| tables := <[table := (rows_of d table ++ rows)%list]> (tables d);
     clock := clock d; fresh_ids := fresh_ids d |}.

Definition draw_id (d : db) : string * db :=
  match fresh_ids d with
  | [] => (EmptyString, d)
  | id :: rest =>
      (id, {| tables := tables d; clock := clock d; fresh_ids := rest |})
  end.

(** A client that answers every query with a response, the way the pages
    read it everywhere: [const { data, error } = await ...; if (error)
    ...].  It never rejects.  A single-row query answers with no data
    unless exactly one row matches; an insert of a row whose identifier is
    taken is refused with a message, and any other insert appends the
    rows. *)
Definition reporting_backend : Backend db :=
  {| select_ilike_single table column filter pattern d :=
       (Returned (single_row column (matching d table filter pattern)), d);
     insert_into table rows d :=
       if existsb (taken d table) rows then (Returned (Some DUPLICATE), d)
       else (Returned None, appended d table rows);
     now_iso d := (clock d, d);
     uuidv4 := draw_id |}.

(** The rejection of a single-row query that finds several rows. *)
Definition AMBIGUOUS : exn :=
  ErrorObject "JSON object requested, multiple (or no) rows returned".

(** A single-row query that rejects when several rows match, which is
    how the spec words it. *)
Definition single (column : string) (found : list obj)
    : outcome (option obj) :=
  match found with
  | [] => Returned None
  | [r] => Returned (Some (project column r))
  | _ :: _ :: _ => Thrown AMBIGUOUS
  end.

(** A client whose single-row query rejects on several matches.  An
    insert appends the rows to the table and reports no error. *)
Definition store_backend : Backend db :=
  {| select_ilike_single table column filter pattern d :=
       (single column (matching d table filter pattern), d);
     insert_into table rows d := (Returned None, appended d table rows);
     now_iso d := (clock d, d);
     uuidv4 := draw_id |}.

End Store.

(* ===================================================================== *)
(** ** lib/gpt.ts and app/api/gpt-shorten/route.ts                        *)
(* ===================================================================== *)

Module GptShorten.

(** The chat-completion service, over a world [W]. *)
Class OpenAI (W : Type) : Type := {
  (** [await openai.chat.completions.create({ ..., messages: [system,
      { role: 'user', content }] })] followed by
      [response.choices[0]?.message?.content]: the content ([None] when
      a link of the chain is missing), or a rejection. *)
  chat_completion_content : json -> W -> outcome (option string) * W;
}.

(** [process.env.OPENAI_API_KEY] *)
Record env : Type := { OPENAI_API_KEY : option string }.

(** [const isOpenAIAvailable = !!apiKey] *)
Definition isOpenAIAvailable (e : env) : bool :=
  match OPENAI_API_KEY e with
  | Some key => negb (is_empty key)
  | None => false
  end.

(** Checks if OpenAI integration is available. *)
Definition isOpenAIEnabled (e : env) : bool := isOpenAIAvailable e.

Inductive response_body : Type :=
| ErrorBody (error : string)
| ShortDescriptionBody (shortDescription : string).

(** [NextResponse.json(body, { status })] *)
Record response : Type := { status : nat; body : response_body }.

(** The request: what [await req.json()] gives. *)
Record Request : Type := { json_body : outcome json }.

(** [const { longDescription } = body]: destructuring [null] throws a
    TypeError; a value without the property gives [undefined]. *)
Definition destructure_longDescription (body : json)
    : outcome (option json) :=
  match body with
  | JNull =>
      Thrown (ErrorObject
        "Cannot destructure property 'longDescription' of 'body' as it is null.")
  | JObject members => Returned (member "longDescription" members)
  | _ => Returned None
  end.

Section WithOpenAI.
Context {W : Type} `{OpenAI W}.

Local Open Scope async_scope.

(** [content?.trim() || null] *)
Definition usable (content : option string) : option string :=
  match content with
  | Some c => let t := trim c in if is_empty t then None else Some t
  | None => None
  end.

(** Generates a shortened description using OpenAI. *)
Definition generateShortDescription (e : env) (longDescription : json)
    : M W (option string) :=
  if negb (isOpenAIAvailable e) then ret None
  else
    try_catch
      (content <~ chat_completion_content longDescription ;;
       ret (usable content))
      (fun _ => ret None).

Definition lift {A} (o : outcome A) : M W A := fun w => (o, w).

Definition POST (e : env) (req : Request) : M W response :=
  try_catch
    (if negb (isOpenAIEnabled e) then
       ret {| status := 503;
              body := ErrorBody "OpenAI API is not configured" |}
     else
       body <~ lift (json_body req) ;;
       longDescription <~ lift (destructure_longDescription body) ;;
       match longDescription with
       | Some text =>
           if negb (json_truthy (Some text)) then
             ret {| status := 400;
                    body := ErrorBody
                              "Missing longDescription in request body" |}
           else
             shortDescription <~ generateShortDescription e text ;;
             match shortDescription with
             | Some short =>
                 if is_empty short then
                   ret {| status := 500;
                          body := ErrorBody
                                    "Failed to generate short description" |}
                 else
                   ret {| status := 200;
                          body := ShortDescriptionBody short |}
             | None =>
                 ret {| status := 500;
                        body := ErrorBody
                                  "Failed to generate short description" |}
             end
       | None =>
           ret {| status := 400;
                  body := ErrorBody
                            "Missing longDescription in request body" |}
       end)
    (fun _ =>
       ret {| status := 500; body := ErrorBody "Internal server error" |}).
End WithOpenAI.

End GptShorten.

(* ===================================================================== *)
(** ** Observing identifier lookups and completion calls                  *)
(* ===================================================================== *)

Module Observe.

Inductive id_request : Type :=
| ReqSelectEq (table column filter value : string).

(** An identifier backend that also keeps the lookups sent to it. *)
Definition traced_ids {W : Type} (B : IdBackend W)
    : IdBackend (W * list id_request) :=
  {| select_eq_single table column filter value s :=
       let (r, w') := select_eq_single table column filter value s.1 in
       (r, (w', (s.2 ++ [ReqSelectEq table column filter value])%list)) |}.

(** A completion service that also keeps the texts sent to it. *)
Definition traced_openai {W : Type} (O : GptShorten.OpenAI W)
    : GptShorten.OpenAI (W * list json) :=
  {| GptShorten.chat_completion_content text s :=
       let (r, w') := GptShorten.chat_completion_content text s.1 in
       (r, (w', (s.2 ++ [text])%list)) |}.

End Observe.

Import Utils Types BulkPage Trace.

Import GptShorten.

(* ===================================================================== *)
(** * The vocabulary of the statements                                    *)
(* ===================================================================== *)

(** ** Lines and separators *)

(** Every code unit of [s] is white space. *)
Fixpoint all_white_space (s : string) : bool :=
  match s with
  | EmptyString => true
  | String c rest => is_white_space c && all_white_space rest
  end.

(** The lines of the text, as written, that are not empty once trimmed. *)
Definition nonempty_lines (text : string) : list string :=
  List.filter (λ line, negb (is_empty (trim line))) (split LF text).

(** The separator the parser settles on: sniffed from the first line that
    is left after trimming. *)
Definition separator_of (text : string) : ascii :=
  match nonempty_lines text with
  | [] => COMMA
  | line :: _ => detect_separator (trim line)
  end.

(** The pasted text of the spec's example: two lines, the second with a
    trailing tab. *)
Definition two_titles : string :=
  "Title A" ++ String TAB "VIRTUAL" ++ String LF "Title B" ++ String TAB "".

(** A first line that ends in a tab, followed by a tab-separated line. *)
Definition trailing_tab_first : string :=
  "a,b" ++ String TAB (String LF ("c" ++ String TAB "d")).

(** The two lines of [two_titles] the other way round: a tab-separated
    paste whose first row has a blank last cell. *)
Definition two_titles_swapped : string :=
  "Title B" ++ String TAB (String LF ("Title A" ++ String TAB "VIRTUAL")).

(** A tab-separated paste whose second line is written with a blank first
    cell. *)
Definition blank_first_cell : string :=
  "A" ++ String TAB "B" ++ String LF (String TAB ("C" ++ String TAB "D")).

(** ** The messages and the calls of a validation *)

(** The two messages of [validateRow]. *)
Definition missing_message (field : string) : string :=
  "Missing required field: " ++ field.

Definition invalid_message (field : string) : string :=
  "Invalid value for field: " ++ field.

(** What the loop over the required fields adds to the error list. *)
Definition required_errors (r : obj) (requiredFields : list string)
    : list string :=
  map missing_message
      (List.filter (λ field, is_missing (get r field)) requiredFields).

(** Does the entry reach its validator: the two tests on the value and
    the test on the validator pass. *)
Definition reaches_validator (r : obj) (entry : string * option (value → bool))
    : option (value → bool) :=
  if is_undefined (get r entry.1) || is_null (get r entry.1) then None
  else entry.2.

(** What the loop over the type validations adds to the error list. *)
Fixpoint type_errors (r : obj) (entries : validators) : list string :=
  match entries with
  | [] => []
  | entry :: rest =>
      match reaches_validator r entry with
      | Some check =>
          if check (get r entry.1) then type_errors r rest
          else invalid_message entry.1 :: type_errors r rest
      | None => type_errors r rest
      end
  end.

(** The validator calls of that loop. *)
Fixpoint type_calls (r : obj) (entries : validators)
    : list (string * value) :=
  match entries with
  | [] => []
  | entry :: rest =>
      match reaches_validator r entry with
      | Some _ => (entry.1, get r entry.1) :: type_calls r rest
      | None => type_calls r rest
      end
  end.

(** The entries for other fields than [field]. *)
Definition without_field (field : string) (entries : validators)
    : validators :=
  List.filter (λ entry, negb (String.eqb entry.1 field)) entries.

(** ** The schema of the bulk page *)

(** The fields [handleParse] passes through [toNumber]. *)
Definition numeric_fields : list string :=
  ["prizeAmount"; "registrationFee"; "teamSizeMin"; "teamSizeMax"].

Definition is_numeric_field (field : string) : bool :=
  existsb (String.eqb field) numeric_fields.

Section BulkVocabulary.
Context `{Platform}.

(** [TYPE_VALIDATIONS] is the two URL entries, then the four number
    entries. *)
Definition url_entries : validators :=
  [ ("websiteUrl", Some url_check); ("competitionImageUrl", Some url_check) ].

Definition number_entries : validators :=
  [ ("prizeAmount", Some number_check);
    ("registrationFee", Some number_check);
    ("teamSizeMin", Some number_check);
    ("teamSizeMax", Some number_check) ].

(** The validation [handleParse] runs on a converted row. *)
Definition validate (processedRow : obj) : validation :=
  validateRow processedRow REQUIRED_FIELDS TYPE_VALIDATIONS.

(** The entry of a converted row in the error set. *)
Definition to_error_row (processedRow : obj) : error_row :=
  {| row := processedRow;
     error := join ", " (errors (validate processedRow)) |}.

End BulkVocabulary.

(** ** A runtime, rows and a store for the examples *)

(** [Number(s)] for a string of decimal digits. *)
Fixpoint digits_value (s : string) (acc : float) : option float :=
  match s with
  | EmptyString => Some acc
  | String c rest =>
      if is_digit c then
        digits_value rest
          (acc * 10 + PrimFloat.of_uint63
                        (Uint63.of_Z (Z.of_N (N_of_ascii c) - 48)))%float
      else None
  end.

(** A runtime that answers as the real one on the inputs of the examples:
    [Number] of decimal digits is their value and [Number] of a word is
    NaN; a URL with a scheme parses when something follows the colon.  The
    examples format no number: every number prints as NaN here. *)
Definition sample_platform : Platform :=
  {| StringToNumber s :=
       match digits_value s 0%float with
       | Some x => x
       | None => PrimFloat.nan
       end;
     NumberToString _ := "NaN";
     url_rest_parses _ rest := negb (is_empty rest) |}.

(** A pasted row with a usable title, a prize that is a word and a
    website that is no URL. *)
Definition word_prize_row : obj :=
  {[ "title" := VStr "Case Cup";
     "prizeAmount" := VStr "abc";
     "websiteUrl" := VStr "not-a-url" ]}.

(** A pasted row whose two URL fields both fail the URL check. *)
Definition two_bad_urls_row : obj :=
  {[ "title" := VStr "Case Cup";
     "websiteUrl" := VStr "not-a-url";
     "competitionImageUrl" := VStr "nope" ]}.

(** A store with two universities whose names differ only in case, and a
    third one. *)
Definition two_mits : Store.db :=
  {| Store.tables :=
       {[ "university" :=
            [ {[ "id" := VStr "u1"; "name" := VStr "MIT" ]};
              {[ "id" := VStr "u2"; "name" := VStr "Mit" ]};
              {[ "id" := VStr "u3"; "name" := VStr "Rotman" ]} ] ]};
     Store.clock := "2025-01-01T00:00:00.000Z";
     Store.fresh_ids := ["00000000-0000-4000-8000-000000000001"] |}.

(** ** Attempts and the requests they send *)

(** The requests a page has sent so far. *)
Definition sent_by {W : Type} (p : page (W * list request)) : list request :=
  (world p).2.

Definition is_select (q : request) : Prop := is_insert q = false.

(** How many of the requests are inserts. *)
Definition inserts (qs : list request) : nat :=
  length (List.filter is_insert qs).

Section SubmissionVocabulary.
Context `{Platform} {W : Type} (B : Backend W).

(** One attempt on [row] at index [i]: its log entry and the requests it
    sent.  Lookups come first; an insert, if any, is the last request.  A
    success entry follows an insert that was accepted; an error entry
    carries the message of what stopped the attempt, and the row. *)
Inductive attempt (row : obj) (i : nat) : LogEntry → list request → Prop :=
| attempt_inserted (ts : string) (payload : obj) (selects : list request)
    (w w' : W) :
    Forall is_select selects →
    insert_into "competition" [payload] w = (Returned None, w') →
    attempt row i (success_entry i ts payload)
      (selects ++ [ReqInsert "competition" [payload]])
| attempt_refused (ts message : string) (payload : obj)
    (selects : list request) (w w' : W) :
    Forall is_select selects →
    insert_into "competition" [payload] w = (Returned (Some message), w') →
    attempt row i (error_entry i ts (ErrorObject message) row)
      (selects ++ [ReqInsert "competition" [payload]])
| attempt_insert_threw (ts : string) (e : exn) (payload : obj)
    (selects : list request) (w w' : W) :
    Forall is_select selects →
    insert_into "competition" [payload] w = (Thrown e, w') →
    attempt row i (error_entry i ts e row)
      (selects ++ [ReqInsert "competition" [payload]])
| attempt_lookup_threw (ts : string) (e : exn)
    (table column filter name : string) (selects : list request)
    (w w' : W) :
    Forall is_select selects →
    select_ilike_single table column filter name w = (Thrown e, w') →
    attempt row i (error_entry i ts e row)
      (selects ++ [ReqSelect table column filter name]).

(** The attempts on the rows from index [i] on, one after the other. *)
Inductive attempts : list obj → nat → list LogEntry → list (list request)
    → Prop :=
| attempts_nil (i : nat) : attempts [] i [] []
| attempts_cons (row : obj) (rows : list obj) (i : nat) (entry : LogEntry)
    (entries : list LogEntry) (seg : list request)
    (segs : list (list request)) :
    attempt row i entry seg →
    attempts rows (S i) entries segs →
    attempts (row :: rows) i (entry :: entries) (seg :: segs).



(** The page after a remote step: a new world, more requests sent. *)
Definition after (p : page (W * list request)) (w' : W)
    (seg : list request) : page (W * list request) :=
  {| world := (w', (sent_by p ++ seg)%list); validRows := validRows p;
     logs := logs p; isSubmitting := isSubmitting p |}.

(** The page after an attempt: the remote steps, then one more log entry. *)
Definition logged (p : page (W * list request)) (w' : W)
    (seg : list request) (entry : LogEntry) : page (W * list request) :=
  {| world := (w', (sent_by p ++ seg)%list); validRows := validRows p;
     logs := (logs p ++ [entry])%list; isSubmitting := isSubmitting p |}.

(** The page when the loop is over. *)
Definition finished (p : page (W * list request)) (w' : W)
    (segs : list (list request)) (entries : list LogEntry)
    : page (W * list request) :=
  {| world := (w', (sent_by p ++ concat segs)%list);
     validRows := validRows p; logs := (logs p ++ entries)%list;
     isSubmitting := isSubmitting p |}.

End SubmissionVocabulary.

(** A valid row that names a university. *)
Definition mit_row : obj :=
  {[ "title" := VStr "Case Cup"; "universityName" := VStr "MIT" ]}.

(** A page with that one valid row, on the store of [two_mits]. *)
Definition mit_page : page (Store.db * list request) :=
  {| world := (two_mits, []); validRows := [mit_row]; logs := [];
     isSubmitting := false |}.

(** A competition of the store. *)
Definition old_cup : obj :=
  {[ "id" := VStr "00000000-0000-4000-8000-000000000001";
     "title" := VStr "Old Cup" ]}.

(** The store of [two_mits] with a competition that already has the first
    identifier the page will draw. *)
Definition crowded : Store.db :=
  {| Store.tables :=
       <["competition" := (old_cup :: nil)]> (Store.tables two_mits);
     Store.clock := "2025-01-01T00:00:00.000Z";
     Store.fresh_ids := [ "00000000-0000-4000-8000-000000000001";
                          "00000000-0000-4000-8000-000000000002" ] |}.

(** A valid row that names no university. *)
Definition second_row : obj := {[ "title" := VStr "Second Cup" ]}.

(** A page with two valid rows, on the store of [crowded]. *)
Definition crowded_page : page (Store.db * list request) :=
  {| world := (crowded, []); validRows := [mit_row; second_row]; logs := [];
     isSubmitting := false |}.

(** ** The responses of the endpoint *)

(** The four error responses of the endpoint. *)
Definition internal_error : response :=
  {| status := 500; body := ErrorBody "Internal server error" |}.

Definition generation_failed : response :=
  {| status := 500; body := ErrorBody "Failed to generate short description" |}.

Definition missing_input : response :=
  {| status := 400;
     body := ErrorBody "Missing longDescription in request body" |}.

Definition not_configured : response :=
  {| status := 503; body := ErrorBody "OpenAI API is not configured" |}.

(** The [longDescription] of a parsed body that is not [null]. *)
Definition longDescription_of (parsed : json) : option json :=
  match parsed with
  | JObject members => member "longDescription" members
  | _ => None
  end.

(** ** Cells, clean values and further vocabulary *)

(** What the parser stores for a piece of a line: the trimmed piece, or
    undefined when nothing is left of it. *)
Definition cell (raw : string) : value :=
  if is_empty (trim raw) then VUndefined else VStr (trim raw).

(** A value the parser can store: undefined, or a string that is not
    empty and has no white space at either end. *)
Definition clean_value (v : value) : Prop :=
  v = VUndefined
  ∨ ∃ s : string, v = VStr s ∧ is_empty s = false ∧ trim s = s.

(** The first code unit of [s], if any, is not white space. *)
Definition starts_clean (s : string) : bool :=
  match s with
  | EmptyString => true
  | String c _ => negb (is_white_space c)
  end.

Section PasteVocabulary.
Context `{Platform}.

(** A pasted URL cell is acceptable: blank, or a valid URL once trimmed;
    so is a cell the line does not reach. *)
Definition url_cell_ok (piece : option string) : Prop :=
  match piece with
  | Some raw =>
      is_empty (trim raw) = true ∨ isValidUrl (VStr (trim raw)) = true
  | None => True
  end.

End PasteVocabulary.

(** The fields of a row that [submitRow] rewrites or replaces on the way to
    the payload. *)
Definition rewritten_fields : list string :=
  ["universityName"; "organizerName"; "tags"; "universityId"; "organizerId"].

(** The fields every payload gets from the defaults when the row lacks
    them. *)
Definition defaulted_fields : list string :=
  [ "id"; "createdAt"; "updatedAt"; "isInternal"; "isFeatured";
    "isHostedByCaseComp"; "isConfirmed" ].

(** [payload.field = id] when the foreign-key step ran. *)
Definition maybe_set (ran : bool) (field : string) (id : value)
    (payload : obj) : obj :=
  if ran then <[field := id]> payload else payload.

(** What holds of a payload sent for [row]: no property holds undefined,
    the two name fields are gone, the tags are no string, the defined
    fields of the row that are not rewritten are carried over, and the
    defaulted fields are present. *)
Definition payload_ok (row payload : obj) : Prop :=
  (∀ (k : string) (v : value), payload !! k = Some v → is_undefined v = false)
  ∧ payload !! "universityName" = None
  ∧ payload !! "organizerName" = None
  ∧ (∀ s : string, get payload "tags" ≠ VStr s)
  ∧ (∀ (k : string) (v : value),
        ¬ In k rewritten_fields → row !! k = Some v →
        is_undefined v = false → payload !! k = Some v)
  ∧ (∀ k : string, In k defaulted_fields → is_Some (payload !! k)).

Section RequestVocabulary.
Context `{Platform}.

(** A request [submitRow] may send for [row]: a lookup of a name the row
    holds, on the table of that name, or the insert of one payload into
    the competition table. *)
Definition sound_request (row : obj) (q : request) : Prop :=
  match q with
  | ReqSelect table column filter pattern =>
      (table = "university" ∧ column = "id" ∧ filter = "name"
       ∧ truthy (get row "universityName") = true
       ∧ pattern = ToString (get row "universityName"))
      ∨ (table = "organizer" ∧ column = "orgId" ∧ filter = "orgName"
         ∧ truthy (get row "organizerName") = true
         ∧ pattern = ToString (get row "organizerName"))
  | ReqInsert table rows =>
      table = "competition"
      ∧ ∃ payload : obj, rows = [payload] ∧ payload_ok row payload
  end.

End RequestVocabulary.

(** The two counters of [LogList] that a submission can raise, added. *)
Definition settled (logs : list LogEntry) : nat :=
  PasteTable.successCount (PasteTable.LogList_counters logs)
  + PasteTable.errorCount (PasteTable.LogList_counters logs).

(** A short description the endpoint can answer with: not empty, and
    without white space at either end. *)
Definition tidy (short : string) : Prop :=
  is_empty short = false ∧ trim short = short.

(** A date runtime for the examples: no string is a date, and the date of
    time value zero prints as the start of 1970. *)
Definition sample_dates : UtilsDates.DateRuntime :=
  {| UtilsDates.time_of_string _ := PrimFloat.nan;
     UtilsDates.toISOString t :=
       if PrimFloat.is_nan t
       then Thrown (ErrorObject "Invalid time value")
       else Returned "1970-01-01T00:00:00.000Z" |}.

(* ===================================================================== *)
(** * Properties                                                          *)
(* ===================================================================== *)

(** ** Trimming and splitting *)

Lemma trimEnd_empty (s : string) : is_empty (trimEnd s) = all_white_space s.
Proof.
  induction s as [|c rest IH]; simpl; [reflexivity|].
  rewrite IH.
  destruct (is_white_space c), (all_white_space rest); reflexivity.
Qed.

Lemma trimStart_white_space (s : string) :
  all_white_space (trimStart s) = all_white_space s.
Proof.
  induction s as [|c rest IH]; simpl; [reflexivity|].
  destruct (is_white_space c) eqn:Hc; simpl; [assumption|].
  rewrite Hc. reflexivity.
Qed.

Lemma trim_empty (s : string) : is_empty (trim s) = all_white_space s.
Proof. unfold trim. rewrite trimEnd_empty. apply trimStart_white_space. Qed.

Lemma split_white_space (sep : ascii) (s : string) :
  all_white_space s = true →
  Forall (λ piece, all_white_space piece = true) (split sep s).
Proof.
  induction s as [|c rest IH]; simpl; intros Hs.
  - repeat constructor.
  - apply andb_prop in Hs as [Hc Hrest]. specialize (IH Hrest).
    destruct (Ascii.eqb c sep).
    + constructor; [reflexivity | assumption].
    + destruct (split sep rest) as [|piece pieces].
      * repeat constructor. simpl. rewrite Hc. reflexivity.
      * inversion IH; subst. constructor; [|assumption].
        simpl. rewrite Hc. assumption.
Qed.

Lemma filter_map_commute {A B} (f : B → bool) (g : A → B) (l : list A) :
  List.filter f (map g l) = map g (List.filter (λ x, f (g x)) l).
Proof.
  induction l as [|x l IH]; simpl; [reflexivity|].
  destruct (f (g x)); simpl; rewrite IH; reflexivity.
Qed.

Lemma trimmed_lines_nonempty_lines (text : string) :
  trimmed_lines text = map trim (nonempty_lines text).
Proof.
  unfold trimmed_lines, nonempty_lines.
  exact (filter_map_commute (λ line, negb (is_empty line)) trim _).
Qed.

Lemma nonempty_lines_blank (text : string) :
  is_empty (trim text) = true → nonempty_lines text = [].
Proof.
  rewrite trim_empty. intros Hws. unfold nonempty_lines.
  pose proof (split_white_space LF text Hws) as Hall.
  induction Hall as [|piece pieces Hpiece _ IH]; simpl; [reflexivity|].
  rewrite trim_empty, Hpiece. simpl. exact IH.
Qed.

Lemma parseDelimitedText_map (text : string) (headers : list string) :
  parseDelimitedText text headers
  = map (λ line, parse_line (separator_of text) headers (trim line))
        (nonempty_lines text).
Proof.
  unfold parseDelimitedText, separator_of.
  destruct (is_empty (trim text)) eqn:Hblank.
  - rewrite (nonempty_lines_blank text Hblank). reflexivity.
  - rewrite trimmed_lines_nonempty_lines.
    destruct (nonempty_lines text) as [|line lines]; simpl; [reflexivity|].
    rewrite map_map. reflexivity.
Qed.

(** The paste box hands over the rows of [parseDelimitedText], unless no
    line is left after trimming. *)
Lemma PasteTable_handleParse (text : string) (headers : list string) :
  PasteTable.handleParse text headers
  = match nonempty_lines text with
    | [] => None
    | _ :: _ => Some (parseDelimitedText text headers)
    end.
Proof.
  unfold PasteTable.handleParse, parseDelimitedText.
  destruct (is_empty (trim text)) eqn:Hblank.
  - rewrite (nonempty_lines_blank text Hblank). reflexivity.
  - rewrite trimmed_lines_nonempty_lines.
    destruct (nonempty_lines text); reflexivity.
Qed.

(** ** The fields a parsed row can have *)

Lemma assign_dom (header : string) (v : value) (r : obj) :
  dom (assign header v r) ⊆ dom r ∪ {[ header ]}.
Proof.
  unfold assign. destruct (String.eqb header "__proto__").
  - intros k. rewrite elem_of_union. tauto.
  - rewrite dom_insert. intros k. rewrite !elem_of_union. tauto.
Qed.

Lemma assign_size (header : string) (v : value) (r : obj) :
  (size (assign header v r) ≤ S (size r))%nat.
Proof.
  unfold assign. destruct (String.eqb header "__proto__"); [lia|].
  rewrite map_size_insert. destruct (r !! header); simpl; lia.
Qed.

Lemma assign_lookup_ne (header : string) (v : value) (r : obj)
    (k : string) :
  header ≠ k → assign header v r !! k = r !! k.
Proof.
  intros Hne. unfold assign. destruct (String.eqb header "__proto__");
    [reflexivity | apply lookup_insert_ne; exact Hne].
Qed.

Lemma assign_lookup_eq (header : string) (v : value) (r : obj) :
  header ≠ "__proto__" → assign header v r !! header = Some v.
Proof.
  intros Hne. unfold assign.
  destruct (String.eqb header "__proto__") eqn:Heq.
  - apply String.eqb_eq in Heq. contradiction.
  - apply lookup_insert_eq.
Qed.

Lemma assign_proto (header : string) (v : value) (r : obj) :
  r !! "__proto__" = None → assign header v r !! "__proto__" = None.
Proof.
  intros Hr. unfold assign.
  destruct (String.eqb header "__proto__") eqn:Heq; [exact Hr|].
  rewrite lookup_insert_ne; [exact Hr|].
  intros ->. rewrite String.eqb_refl in Heq. discriminate.
Qed.

Lemma forEach_header_dom (values headers : list string) (index : nat)
    (r : obj) :
  dom (forEach_header values headers index r)
  ⊆ dom r ∪ list_to_set headers.
Proof.
  revert index r.
  induction headers as [|header rest IH]; intros index r; simpl.
  - set_solver.
  - etransitivity; [apply IH|].
    destruct (values !! index) as [raw|]; intros k;
      [pose proof (assign_dom header
                     (if is_empty (trim raw) then VUndefined
                      else VStr (trim raw)) r k) as Hk; revert Hk|];
      rewrite !elem_of_union, ?elem_of_list_to_set, ?list_elem_of_cons,
        ?elem_of_singleton; tauto.
Qed.

Lemma forEach_header_size (values headers : list string) (index : nat)
    (r : obj) :
  (size (forEach_header values headers index r) ≤ size r + length headers)%nat.
Proof.
  revert index r.
  induction headers as [|header rest IH]; intros index r; simpl; [lia|].
  etransitivity; [apply IH|].
  destruct (values !! index) as [raw|]; [|lia].
  pose proof (assign_size header
                (if is_empty (trim raw) then VUndefined else VStr (trim raw))
                r). lia.
Qed.

Lemma parse_line_fields (sep : ascii) (headers : list string) (line : string) :
  dom (parse_line sep headers line) ⊆ list_to_set headers
  ∧ (size (parse_line sep headers line) ≤ length headers)%nat
  ∧ (size (filterUndefined (parse_line sep headers line))
     ≤ length headers)%nat.
Proof.
  unfold parse_line.
  pose proof (forEach_header_dom (split sep line) headers 0 ∅) as Hdom.
  pose proof (forEach_header_size (split sep line) headers 0 ∅) as Hsize.
  rewrite map_size_empty in Hsize.
  rewrite dom_empty_L, union_empty_l_L in Hdom.
  split; [exact Hdom|]. split; [lia|].
  etransitivity; [|exact Hsize].
  apply map_subseteq_size, map_filter_subseteq.
Qed.

(** C1. For every pasted text and every header list, the parser returns
    one row per line of the text that is not empty after trimming, in the
    order of the lines: the i-th row is the one built from the i-th such
    line.  Every row only has properties named in the header list, so it
    has at most as many properties, and at most as many populated ones, as
    there are headers.  The paste box hands over these same rows, when it
    hands over any. *)
Theorem parseDelimitedText_rows (text : string) (headers : list string) :
  let rows := parseDelimitedText text headers in
  length rows = length (nonempty_lines text)
  ∧ (∀ pasted : list obj,
        PasteTable.handleParse text headers = Some pasted → pasted = rows)
  ∧ (∀ (i : nat) (line : string),
        nonempty_lines text !! i = Some line →
        rows !! i
        = Some (parse_line (separator_of text) headers (trim line)))
  ∧ (∀ r : obj, In r rows →
        dom r ⊆ list_to_set headers
        ∧ (size r ≤ length headers)%nat
        ∧ (size (filterUndefined r) ≤ length headers)%nat).
Proof.
  cbv zeta. split; [|split; [|split]].
  - rewrite parseDelimitedText_map. apply length_map.
  - intros pasted. rewrite PasteTable_handleParse.
    destruct (nonempty_lines text); congruence.
  - intros i line Hline.
    rewrite parseDelimitedText_map, list_lookup_fmap, Hline. reflexivity.
  - intros r Hr. rewrite parseDelimitedText_map in Hr.
    apply in_map_iff in Hr as (line & <- & _). apply parse_line_fields.
Qed.

(** ** The separator *)

(** The separator is settled once, by the first line that is left after
    trimming: when that trimmed line contains a tab every line is split on
    tab, whatever commas there are, and otherwise every line is split on
    comma. *)
Lemma parseDelimitedText_separator (text : string) (headers : list string)
    (firstLine : string) (rest : list string) :
  map trim (nonempty_lines text) = firstLine :: rest →
  parseDelimitedText text headers
  = map (parse_line (if includes TAB firstLine then TAB else COMMA) headers)
        (firstLine :: rest)
  ∧ PasteTable.handleParse text headers
    = Some (parseDelimitedText text headers).
Proof.
  intros Hlines. rewrite PasteTable_handleParse.
  rewrite parseDelimitedText_map, <- Hlines, map_map.
  unfold separator_of.
  destruct (nonempty_lines text) as [|line lines]; [discriminate|].
  injection Hlines as <- _. split; reflexivity.
Qed.

Lemma parseDelimitedText_separator_witness :
  map trim (nonempty_lines two_titles)
  = ("Title A" ++ String TAB "VIRTUAL") :: ["Title B"]
  ∧ parseDelimitedText two_titles ["title"; "format"]
    = map (parse_line TAB ["title"; "format"])
          (("Title A" ++ String TAB "VIRTUAL") :: ["Title B"]).
Proof.
  split; [reflexivity|].
  apply (parseDelimitedText_separator two_titles ["title"; "format"]
           ("Title A" ++ String TAB "VIRTUAL") ["Title B"]).
  reflexivity.
Defined.

(** C2, where the code departs from it.  [two_titles_swapped] is a
    tab-separated paste, the kind of text the parser is documented to
    take ("Parse CSV or TSV", "Paste TSV/CSV data"), and its first
    non-empty line, "Title B" followed by a tab, contains a tab.  The
    parser trims that line before it looks for the tab, finds none, and
    splits every line on comma: the second line stays in one piece and the
    format is lost, where splitting on tab gives the two rows of the
    paste. *)
Theorem tab_separated_paste_is_split_on_comma :
  nonempty_lines two_titles_swapped
  = [ "Title B" ++ String TAB ""; "Title A" ++ String TAB "VIRTUAL" ]
  ∧ includes TAB ("Title B" ++ String TAB "") = true
  ∧ parseDelimitedText two_titles_swapped ["title"; "format"]
    = map (λ line, parse_line COMMA ["title"; "format"] (trim line))
          (nonempty_lines two_titles_swapped)
  ∧ map (λ r : obj, (get r "title", get r "format"))
        (parseDelimitedText two_titles_swapped ["title"; "format"])
    = [ (VStr "Title B", VUndefined);
        (VStr ("Title A" ++ String TAB "VIRTUAL"), VUndefined) ]
  ∧ map (λ r : obj, (get r "title", get r "format"))
        (map (λ line, parse_line TAB ["title"; "format"] (trim line))
           (nonempty_lines two_titles_swapped))
    = [ (VStr "Title B", VUndefined); (VStr "Title A", VStr "VIRTUAL") ]
  ∧ PasteTable.handleParse two_titles_swapped ["title"; "format"]
    = Some (parseDelimitedText two_titles_swapped ["title"; "format"]).
Proof. repeat split; vm_compute; reflexivity. Qed.

(** The same on a first line that has a comma and ends in a tab: the tab
    is trimmed away before the separator is sniffed, the lines are split
    on comma, and the second line stays in one piece. *)
Lemma separator_ignores_trimmed_tab :
  nonempty_lines trailing_tab_first
  = [ "a,b" ++ String TAB ""; "c" ++ String TAB "d" ]
  ∧ includes TAB ("a,b" ++ String TAB "") = true
  ∧ parseDelimitedText trailing_tab_first ["title"; "format"]
    = map (λ line, parse_line COMMA ["title"; "format"] (trim line))
          (nonempty_lines trailing_tab_first)
  ∧ parseDelimitedText trailing_tab_first ["title"; "format"]
    ≠ map (λ line, parse_line TAB ["title"; "format"] (trim line))
          (nonempty_lines trailing_tab_first)
  ∧ map (λ r : obj, (get r "title", get r "format"))
        (parseDelimitedText trailing_tab_first ["title"; "format"])
    = [ (VStr "a", VStr "b"); (VStr ("c" ++ String TAB "d"), VUndefined) ]
  ∧ PasteTable.handleParse trailing_tab_first ["title"; "format"]
    = Some (parseDelimitedText trailing_tab_first ["title"; "format"]).
Proof.
  repeat split; try reflexivity.
  intros Heq.
  apply (f_equal (map (λ r : obj, get r "format"))) in Heq.
  vm_compute in Heq. discriminate Heq.
Qed.

(** ** Default-filling *)

Lemma filterUndefined_lookup_Some (o : obj) (k : string) (v : value) :
  filterUndefined o !! k = Some v ↔ o !! k = Some v ∧ is_undefined v = false.
Proof. unfold filterUndefined. apply map_lookup_filter_Some. Qed.

Lemma applyDefaults_lookup (data defaults : obj) (k : string) :
  applyDefaults data defaults !! k
  = match data !! k with
    | Some v => if is_undefined v then defaults !! k else Some v
    | None => defaults !! k
    end.
Proof.
  unfold applyDefaults. rewrite lookup_union.
  destruct (filterUndefined data !! k) as [v|] eqn:Hf.
  - apply filterUndefined_lookup_Some in Hf as [-> ->].
    destruct (defaults !! k); reflexivity.
  - rewrite (left_id None _).
    destruct (data !! k) as [v|] eqn:Hd; [|reflexivity].
    destruct (is_undefined v) eqn:Hv; [reflexivity|].
    assert (filterUndefined data !! k = Some v) as Hsome
      by (apply filterUndefined_lookup_Some; auto).
    congruence.
Qed.

(** C8. Default-filling is idempotent: filling the result of
    [applyDefaults d m] from the same defaults [m] again gives the same
    record, so no field the first application set is changed. *)
Theorem applyDefaults_idempotent (d m : obj) :
  applyDefaults (applyDefaults d m) m = applyDefaults d m.
Proof.
  apply map_eq. intros k.
  rewrite (applyDefaults_lookup (applyDefaults d m) m k).
  rewrite (applyDefaults_lookup d m k).
  destruct (d !! k) as [v|].
  - destruct (is_undefined v) eqn:Hv.
    + destruct (m !! k) as [w|]; [|reflexivity].
      destruct (is_undefined w); reflexivity.
    + rewrite Hv. reflexivity.
  - destruct (m !! k) as [w|]; [|reflexivity].
    destruct (is_undefined w); reflexivity.
Qed.

(** ** Row validation *)

Lemma missing_not_invalid (f g : string) :
  missing_message f ≠ invalid_message g.
Proof. unfold missing_message, invalid_message. discriminate. Qed.

Lemma invalid_message_inj (f g : string) :
  invalid_message f = invalid_message g → f = g.
Proof. unfold invalid_message. intros Heq. injection Heq as Heq. exact Heq. Qed.

Lemma check_required_app (r : obj) (requiredFields errs : list string) :
  check_required r requiredFields errs
  = (errs ++ required_errors r requiredFields)%list.
Proof.
  revert errs. unfold required_errors.
  induction requiredFields as [|field rest IH]; intros errs; simpl.
  - rewrite app_nil_r. reflexivity.
  - rewrite IH. destruct (is_missing (get r field)); simpl; [|reflexivity].
    rewrite <- app_assoc. reflexivity.
Qed.

Lemma check_types_app (r : obj) (entries : validators) (errs : list string)
    (calls : list (string * value)) :
  check_types r entries errs calls
  = ((errs ++ type_errors r entries)%list, (calls ++ type_calls r entries)%list).
Proof.
  revert errs calls.
  induction entries as [|[field validator] rest IH]; intros errs calls; simpl.
  - rewrite !app_nil_r. reflexivity.
  - unfold reaches_validator; simpl.
    destruct (is_undefined (get r field)); simpl; [apply IH|].
    destruct (is_null (get r field)); simpl; [apply IH|].
    destruct validator as [check|]; [|apply IH].
    rewrite IH. destruct (check (get r field)); rewrite <- ?app_assoc; reflexivity.
Qed.

Lemma validateRow_errors (r : obj) (requiredFields : list string)
    (typeValidations : validators) :
  errors (validateRow r requiredFields typeValidations)
  = (required_errors r requiredFields ++ type_errors r typeValidations)%list.
Proof.
  unfold validateRow, validateRow_run. simpl.
  rewrite check_types_app, check_required_app. reflexivity.
Qed.

Lemma validator_calls_eq (r : obj) (requiredFields : list string)
    (typeValidations : validators) :
  validator_calls r requiredFields typeValidations
  = type_calls r typeValidations.
Proof.
  unfold validator_calls, validateRow_run.
  rewrite check_types_app. reflexivity.
Qed.

Lemma validateRow_isValid (r : obj) (requiredFields : list string)
    (typeValidations : validators) :
  isValid (validateRow r requiredFields typeValidations) = true
  ↔ errors (validateRow r requiredFields typeValidations) = [].
Proof.
  unfold validateRow; simpl.
  destruct (validateRow_run r requiredFields typeValidations).1; simpl;
    split; congruence.
Qed.

Lemma validateRow_invalid (r : obj) (requiredFields : list string)
    (typeValidations : validators) (msg : string) :
  In msg (errors (validateRow r requiredFields typeValidations)) →
  isValid (validateRow r requiredFields typeValidations) = false.
Proof.
  intros Hin.
  destruct (isValid (validateRow r requiredFields typeValidations)) eqn:Hv;
    [|reflexivity].
  apply validateRow_isValid in Hv. rewrite Hv in Hin. destruct Hin.
Qed.

Lemma type_calls_In (r : obj) (entries : validators) (field : string)
    (v : value) :
  In (field, v) (type_calls r entries) →
  v = get r field ∧ is_undefined v = false ∧ is_null v = false.
Proof.
  induction entries as [|entry rest IH]; simpl; [tauto|].
  unfold reaches_validator.
  destruct (is_undefined (get r entry.1)) eqn:Hu; simpl; [exact IH|].
  destruct (is_null (get r entry.1)) eqn:Hn; simpl; [exact IH|].
  destruct entry.2; [|exact IH].
  intros [Heq|Hin]; [|exact (IH Hin)].
  injection Heq as <- <-. auto.
Qed.

Lemma type_errors_In (r : obj) (entries : validators) (field : string) :
  In (invalid_message field) (type_errors r entries) →
  is_undefined (get r field) = false ∧ is_null (get r field) = false.
Proof.
  induction entries as [|entry rest IH]; simpl; [tauto|].
  unfold reaches_validator.
  destruct (is_undefined (get r entry.1)) eqn:Hu; simpl; [exact IH|].
  destruct (is_null (get r entry.1)) eqn:Hn; simpl; [exact IH|].
  destruct entry.2 as [check|]; [|exact IH].
  destruct (check (get r entry.1)); [exact IH|].
  intros [Heq|Hin]; [|exact (IH Hin)].
  apply invalid_message_inj in Heq as <-. auto.
Qed.

Lemma type_errors_without (r : obj) (entries : validators) (field : string) :
  is_undefined (get r field) || is_null (get r field) = true →
  type_errors r (without_field field entries) = type_errors r entries
  ∧ type_calls r (without_field field entries) = type_calls r entries.
Proof.
  intros Hskip.
  induction entries as [|entry rest [IHe IHc]]; simpl; [auto|].
  destruct (String.eqb entry.1 field) eqn:Heq; simpl.
  - apply String.eqb_eq in Heq. unfold reaches_validator.
    rewrite Heq, Hskip. auto.
  - rewrite IHe, IHc. auto.
Qed.

(** C7. For every row and every mapping from fields to predicates:
    [validateRow] calls a predicate only on the value of its own field,
    and only when that value is neither undefined nor null.  A field whose
    value is unset or null gets no call and no "Invalid value" message, and
    the result is the one the mapping without that field gives: such a
    field can only be flagged as a missing required field. *)
Theorem validateRow_skips_unset (r : obj) (requiredFields : list string)
    (typeValidations : validators) (field : string) :
  is_undefined (get r field) || is_null (get r field) = true →
  (∀ (f : string) (v : value),
      In (f, v) (validator_calls r requiredFields typeValidations) →
      v = get r f ∧ is_undefined v = false ∧ is_null v = false)
  ∧ (∀ v : value,
        ¬ In (field, v) (validator_calls r requiredFields typeValidations))
  ∧ ¬ In ("Invalid value for field: " ++ field)
         (errors (validateRow r requiredFields typeValidations))
  ∧ validateRow r requiredFields (without_field field typeValidations)
    = validateRow r requiredFields typeValidations.
Proof.
  intros Hskip. rewrite validator_calls_eq. repeat split.
  - eapply type_calls_In; eassumption.
  - eapply type_calls_In; eassumption.
  - eapply type_calls_In; eassumption.
  - intros v Hin. apply type_calls_In in Hin as (-> & Hu & Hn).
    rewrite Hu, Hn in Hskip. discriminate.
  - rewrite validateRow_errors. intros Hin.
    apply in_app_or in Hin as [Hin|Hin].
    + unfold required_errors in Hin. apply in_map_iff in Hin as (g & Hg & _).
      exact (missing_not_invalid g field Hg).
    + apply type_errors_In in Hin as [Hu Hn].
      rewrite Hu, Hn in Hskip. discriminate.
  - unfold validateRow, validateRow_run.
    rewrite !check_types_app, !check_required_app. simpl.
    destruct (type_errors_without r typeValidations field Hskip) as [-> _].
    reflexivity.
Qed.

Lemma validateRow_skips_unset_witness :
  let r : obj := {[ "websiteUrl" := VNull ]} in
  let never : validators := [("websiteUrl", Some (λ _, false))] in
  is_undefined (get r "websiteUrl") || is_null (get r "websiteUrl") = true
  ∧ validator_calls r ["title"] never = []
  ∧ errors (validateRow r ["title"] never) = ["Missing required field: title"]
  ∧ validateRow r ["title"] (without_field "websiteUrl" never)
    = validateRow r ["title"] never.
Proof.
  cbv zeta.
  assert (is_undefined (get ({[ "websiteUrl" := VNull ]} : obj) "websiteUrl")
          || is_null (get ({[ "websiteUrl" := VNull ]} : obj) "websiteUrl")
          = true) as Hskip by reflexivity.
  split; [exact Hskip|]. split; [reflexivity|]. split; [reflexivity|].
  exact (proj2 (proj2 (proj2
    (validateRow_skips_unset {[ "websiteUrl" := VNull ]} ["title"]
       [("websiteUrl", Some (λ _, false))] "websiteUrl" Hskip)))).
Defined.

(** ** The bulk page: converting, validating and sorting the rows *)

Section Bulk.
Context `{Platform}.

Lemma get_convert_types (r : obj) (field : string) :
  get (convert_types r) field
  = if is_numeric_field field then toNumber (get r field) else get r field.
Proof.
  unfold convert_types, get at 1, is_numeric_field, numeric_fields.
  rewrite !lookup_insert. simpl.
  repeat case_decide; subst; simpl; try reflexivity;
    repeat match goal with
           | Hne : ?a ≠ ?b |- context [String.eqb ?b ?a] =>
               rewrite (proj2 (String.eqb_neq b a)) by congruence
           end; reflexivity.
Qed.

Lemma toNumber_silent (v : value) :
  is_undefined (toNumber v) = true ∨ number_check (toNumber v) = true.
Proof.
  unfold number_check.
  destruct v as [| |b|x|s|items]; simpl; auto.
  - right. destruct (PrimFloat.is_nan x); simpl;
      [rewrite orb_true_r|rewrite orb_true_r]; reflexivity.
  - destruct (PrimFloat.is_nan (StringToNumber s)) eqn:Hnan; simpl; auto.
    right. rewrite Hnan. simpl. apply orb_true_r.
Qed.

Lemma number_entries_silent (r : obj) :
  type_errors (convert_types r) number_entries = [].
Proof.
  unfold number_entries. simpl. unfold reaches_validator. simpl.
  rewrite !get_convert_types. simpl.
  repeat match goal with
         | |- context [toNumber (get r ?f)] =>
             let Hu := fresh "Hu" in
             destruct (toNumber_silent (get r f)) as [Hu|Hu];
             rewrite ?Hu; simpl;
             [| destruct (is_undefined (toNumber (get r f))
                          || is_null (toNumber (get r f))); simpl;
                rewrite ?Hu ]
         end; reflexivity.
Qed.

Lemma type_errors_app (r : obj) (a b : validators) :
  type_errors r (a ++ b)%list = (type_errors r a ++ type_errors r b)%list.
Proof.
  induction a as [|entry a IH]; simpl; [reflexivity|].
  destruct (reaches_validator r entry) as [check|]; [|exact IH].
  destruct (check (get r entry.1)); simpl; rewrite IH; reflexivity.
Qed.

Lemma url_errors_convert (r : obj) :
  type_errors (convert_types r) url_entries = type_errors r url_entries.
Proof.
  unfold url_entries. simpl. unfold reaches_validator. simpl.
  rewrite !get_convert_types. reflexivity.
Qed.

(** The errors of a converted row come from the title and from the two
    URL fields of the row as pasted. *)
Lemma validate_errors (r : obj) :
  errors (validate (convert_types r))
  = (required_errors r REQUIRED_FIELDS ++ type_errors r url_entries)%list.
Proof.
  unfold validate. rewrite validateRow_errors.
  change TYPE_VALIDATIONS with (url_entries ++ number_entries)%list.
  rewrite type_errors_app, number_entries_silent, app_nil_r.
  rewrite url_errors_convert. f_equal.
  unfold required_errors, REQUIRED_FIELDS. simpl.
  rewrite get_convert_types. reflexivity.
Qed.

Lemma handleParse_loop_cons (r : obj) (rest valid : list obj)
    (errs : list error_row) :
  handleParse_loop (r :: rest) valid errs
  = if isValid (validate (convert_types r))
    then handleParse_loop rest (valid ++ [convert_types r]) errs
    else handleParse_loop rest valid
           (errs ++ [to_error_row (convert_types r)]).
Proof. reflexivity. Qed.

Lemma handleParse_loop_app (rows valid : list obj) (errs : list error_row) :
  handleParse_loop rows valid errs
  = ((valid ++ List.filter (λ p, isValid (validate p))
                 (map convert_types rows))%list,
     (errs ++ map to_error_row
               (List.filter (λ p, negb (isValid (validate p)))
                  (map convert_types rows)))%list).
Proof.
  revert valid errs.
  induction rows as [|r rest IH]; intros valid errs.
  - simpl. rewrite !app_nil_r. reflexivity.
  - rewrite handleParse_loop_cons. cbn [map List.filter].
    destruct (isValid (validate (convert_types r))); cbn [negb map];
      rewrite IH, <- app_assoc; reflexivity.
Qed.

(** A converted row that fails validation is in the error set with its
    joined messages, and not in the valid set; one that passes is in the
    valid set. *)
Lemma handleParse_sorts (rows : list obj) (r : obj) :
  In r rows →
  if isValid (validate (convert_types r))
  then In (convert_types r) (handleParse rows).1
  else In (to_error_row (convert_types r)) (handleParse rows).2
       ∧ ¬ In (convert_types r) (handleParse rows).1.
Proof.
  intros Hr. unfold handleParse. rewrite handleParse_loop_app.
  cbn [fst snd app].
  destruct (isValid (validate (convert_types r))) eqn:Hv.
  - apply filter_In. split; [apply in_map; exact Hr | exact Hv].
  - split.
    + apply in_map, filter_In. split; [apply in_map; exact Hr|].
      rewrite Hv. reflexivity.
    + intros Hin. apply filter_In in Hin as [_ Hin]. congruence.
Qed.

(** C6. For every bulk-competition row whose [websiteUrl] is the string
    "not-a-url" and whose title is present: validation fails, the error
    list has the message "Invalid value for field: websiteUrl", and it is
    the first message, followed only by the message for
    [competitionImageUrl] when that field fails its check too; the row
    goes to the error set with the joined messages, and not to the valid
    set. *)
Theorem not_a_url_is_an_error (r : obj) :
  get r "websiteUrl" = VStr "not-a-url" →
  is_missing (get r "title") = false →
  let res := validate (convert_types r) in
  isValid res = false
  ∧ In "Invalid value for field: websiteUrl" (errors res)
  ∧ errors res
    = "Invalid value for field: websiteUrl"
      :: type_errors r [("competitionImageUrl", Some url_check)]
  ∧ (∀ rows : list obj, In r rows →
        In {| row := convert_types r; error := join ", " (errors res) |}
           (handleParse rows).2
        ∧ ¬ In (convert_types r) (handleParse rows).1).
Proof.
  intros Hurl Htitle. cbv zeta.
  assert (errors (validate (convert_types r))
          = "Invalid value for field: websiteUrl"
            :: type_errors r [("competitionImageUrl", Some url_check)])
    as Herrors.
  { rewrite validate_errors. unfold required_errors, REQUIRED_FIELDS.
    simpl List.filter. rewrite Htitle. simpl.
    unfold reaches_validator at 1. simpl. rewrite Hurl. reflexivity. }
  assert (isValid (validate (convert_types r)) = false) as Hinvalid.
  { apply (validateRow_invalid _ _ _ "Invalid value for field: websiteUrl").
    fold (validate (convert_types r)). rewrite Herrors. left. reflexivity. }
  split; [exact Hinvalid|]. split; [rewrite Herrors; left; reflexivity|].
  split; [exact Herrors|].
  intros rows Hr. pose proof (handleParse_sorts rows r Hr) as Hsort.
  rewrite Hinvalid in Hsort. exact Hsort.
Qed.

(** C3. For every row and every list of required fields: when a required
    field of the row is unset, null or the empty string, [validateRow]
    answers [isValid = false] and its error list has the message
    "Missing required field: " followed by the name of that field.  So
    when the row is a converted row of the bulk page, validated against the
    page's schema, [handleParse] puts it in the error set, with its joined
    messages, and not in the valid set. *)
Theorem validateRow_missing_required (r : obj) (requiredFields : list string)
    (typeValidations : validators) (field : string) :
  In field requiredFields →
  is_missing (get r field) = true →
  isValid (validateRow r requiredFields typeValidations) = false
  ∧ In ("Missing required field: " ++ field)
       (errors (validateRow r requiredFields typeValidations))
  ∧ (∀ (rows : list obj) (pasted : obj),
        In pasted rows →
        convert_types pasted = r →
        requiredFields = REQUIRED_FIELDS →
        typeValidations = TYPE_VALIDATIONS →
        In {| row := r;
              error := join ", "
                         (errors (validateRow r requiredFields
                                    typeValidations)) |}
           (handleParse rows).2
        ∧ ¬ In r (handleParse rows).1).
Proof.
  intros Hfield Hmissing.
  assert (In (missing_message field)
             (errors (validateRow r requiredFields typeValidations))) as Hin.
  { rewrite validateRow_errors. apply in_or_app. left.
    unfold required_errors. apply in_map, filter_In. auto. }
  pose proof (validateRow_invalid _ _ _ _ Hin) as Hinvalid.
  split; [exact Hinvalid|]. split; [exact Hin|].
  intros rows pasted Hpasted <- -> ->.
  pose proof (handleParse_sorts rows pasted Hpasted) as Hsort.
  unfold validate in Hsort at 1. rewrite Hinvalid in Hsort. exact Hsort.
Qed.
End Bulk.

Section BulkNumbers.
Context `{Platform}.

Lemma required_title_errors (r : obj) :
  required_errors r REQUIRED_FIELDS = []
  ↔ is_missing (get r "title") = false.
Proof.
  unfold required_errors, REQUIRED_FIELDS. simpl.
  destruct (is_missing (get r "title")); simpl; split; congruence.
Qed.

(** C10, as the code has it.  In the bulk pipeline, a [prizeAmount],
    [registrationFee], [teamSizeMin] or [teamSizeMax] that is a string not
    parsing as a number is undefined in the converted row; validation makes
    no predicate call on that field and gives no "Invalid value" message
    for it; all messages come from the title and the two URL fields, so the
    row is valid exactly when its title is present and neither URL field
    fails its check, and it is sorted accordingly. *)
Theorem non_numeric_is_discarded (r : obj) (field s : string) :
  In field numeric_fields →
  get r field = VStr s →
  PrimFloat.is_nan (StringToNumber s) = true →
  let res := validate (convert_types r) in
  get (convert_types r) field = VUndefined
  ∧ (∀ v : value,
        ¬ In (field, v)
            (validator_calls (convert_types r) REQUIRED_FIELDS TYPE_VALIDATIONS))
  ∧ ¬ In ("Invalid value for field: " ++ field) (errors res)
  ∧ errors res
    = (required_errors r REQUIRED_FIELDS ++ type_errors r url_entries)%list
  ∧ (isValid res = true
     ↔ is_missing (get r "title") = false ∧ type_errors r url_entries = [])
  ∧ (∀ rows : list obj, In r rows →
        if isValid res
        then In (convert_types r) (handleParse rows).1
        else In {| row := convert_types r; error := join ", " (errors res) |}
                (handleParse rows).2
             ∧ ¬ In (convert_types r) (handleParse rows).1).
Proof.
  intros Hfield Hstr Hnan. cbv zeta.
  assert (get (convert_types r) field = VUndefined) as Hundef.
  { rewrite get_convert_types.
    assert (is_numeric_field field = true) as ->.
    { unfold is_numeric_field. apply existsb_exists. exists field.
      split; [exact Hfield | apply String.eqb_refl]. }
    rewrite Hstr. simpl. rewrite Hnan. reflexivity. }
  split; [exact Hundef|]. split; [|split; [|split; [|split]]].
  - intros v Hin. rewrite validator_calls_eq in Hin.
    apply type_calls_In in Hin as (-> & Hu & _).
    rewrite Hundef in Hu. discriminate.
  - unfold validate. rewrite validateRow_errors. intros Hin.
    apply in_app_or in Hin as [Hin|Hin].
    + unfold required_errors in Hin. apply in_map_iff in Hin as (g & Hg & _).
      exact (missing_not_invalid g field Hg).
    + apply type_errors_In in Hin as [Hu _].
      rewrite Hundef in Hu. discriminate.
  - apply validate_errors.
  - unfold validate at 1. rewrite validateRow_isValid.
    fold (validate (convert_types r)). rewrite validate_errors.
    rewrite <- required_title_errors. split.
    + intros Heq. apply app_eq_nil in Heq. exact Heq.
    + intros [-> ->]. reflexivity.
  - intros rows Hr. exact (handleParse_sorts rows r Hr).
Qed.
End BulkNumbers.

(** ** The bulk page on example rows *)

Lemma validateRow_missing_required_witness :
  In "title" ["title"]
  ∧ is_missing (get ({[ "format" := VStr "VIRTUAL" ]} : obj) "title") = true
  ∧ isValid (validateRow {[ "format" := VStr "VIRTUAL" ]} ["title"] []) = false
  ∧ In ("Missing required field: " ++ "title")
       (errors (validateRow {[ "format" := VStr "VIRTUAL" ]} ["title"] [])).
Proof.
  assert (In "title" ["title"]) as Hin by (left; reflexivity).
  assert (is_missing (get ({[ "format" := VStr "VIRTUAL" ]} : obj) "title")
          = true) as Hmissing by reflexivity.
  pose proof (@validateRow_missing_required sample_platform
                {[ "format" := VStr "VIRTUAL" ]} ["title"] [] "title"
                Hin Hmissing) as (Hinvalid & Hmessage & _).
  split; [exact Hin|]. split; [exact Hmissing|].
  split; [exact Hinvalid | exact Hmessage].
Defined.

Lemma not_a_url_is_an_error_witness :
  get word_prize_row "websiteUrl" = VStr "not-a-url"
  ∧ is_missing (get word_prize_row "title") = false
  ∧ isValid (@validate sample_platform
               (@convert_types sample_platform word_prize_row)) = false
  ∧ errors (@validate sample_platform
              (@convert_types sample_platform word_prize_row))
    = ["Invalid value for field: websiteUrl"].
Proof.
  assert (get word_prize_row "websiteUrl" = VStr "not-a-url") as Hurl
    by reflexivity.
  assert (is_missing (get word_prize_row "title") = false) as Htitle
    by reflexivity.
  pose proof (@not_a_url_is_an_error sample_platform word_prize_row
                Hurl Htitle) as (Hinvalid & _ & Herrors & _).
  split; [exact Hurl|]. split; [exact Htitle|]. split; [exact Hinvalid|].
  rewrite Herrors. reflexivity.
Defined.

(** C6, as stated, fails.  [two_bad_urls_row] has a title and the
    [websiteUrl] "not-a-url", and it goes to the error set, but its error
    list is not exactly the one message: the message for
    [competitionImageUrl] follows, and the error set shows both, joined. *)
Lemma not_a_url_is_not_the_only_error :
  get two_bad_urls_row "websiteUrl" = VStr "not-a-url"
  ∧ is_missing (get two_bad_urls_row "title") = false
  ∧ errors (@validate sample_platform
              (@convert_types sample_platform two_bad_urls_row))
    = [ "Invalid value for field: websiteUrl";
        "Invalid value for field: competitionImageUrl" ]
  ∧ errors (@validate sample_platform
              (@convert_types sample_platform two_bad_urls_row))
    ≠ [ "Invalid value for field: websiteUrl" ]
  ∧ @handleParse sample_platform [two_bad_urls_row]
    = ([], [ {| row := @convert_types sample_platform two_bad_urls_row;
                error := "Invalid value for field: websiteUrl, "
                         ++ "Invalid value for field: competitionImageUrl" |} ]).
Proof.
  split; [reflexivity|]. split; [reflexivity|].
  split; [vm_compute; reflexivity|].
  split; [vm_compute; discriminate | vm_compute; reflexivity].
Qed.

(** The example of the spec: the two lines of [two_titles] give two rows,
    the second without a format, and both are valid. *)
Example two_titles_rows :
  parseDelimitedText two_titles ["title"; "format"]
  = [ {[ "title" := VStr "Title A"; "format" := VStr "VIRTUAL" ]};
      {[ "title" := VStr "Title B" ]} ]
  ∧ map (λ r, isValid (@validate sample_platform
                         (@convert_types sample_platform r)))
        (parseDelimitedText two_titles ["title"; "format"])
    = [true; true].
Proof. split; vm_compute; reflexivity. Qed.

Lemma non_numeric_is_discarded_witness :
  In "prizeAmount" numeric_fields
  ∧ get word_prize_row "prizeAmount" = VStr "abc"
  ∧ PrimFloat.is_nan (@StringToNumber sample_platform "abc") = true
  ∧ get (@convert_types sample_platform word_prize_row) "prizeAmount"
    = VUndefined
  ∧ ¬ In ("Invalid value for field: " ++ "prizeAmount")
         (errors (@validate sample_platform
                    (@convert_types sample_platform word_prize_row))).
Proof.
  assert (In "prizeAmount" numeric_fields) as Hfield by (left; reflexivity).
  assert (get word_prize_row "prizeAmount" = VStr "abc") as Hstr
    by reflexivity.
  assert (PrimFloat.is_nan (@StringToNumber sample_platform "abc") = true)
    as Hnan by reflexivity.
  pose proof (@non_numeric_is_discarded sample_platform word_prize_row
                "prizeAmount" "abc" Hfield Hstr Hnan)
    as (Hundef & _ & Hsilent & _).
  split; [exact Hfield|]. split; [exact Hstr|]. split; [exact Hnan|].
  split; [exact Hundef | exact Hsilent].
Defined.

(** C10, as stated, fails.  [word_prize_row] has its required field, and
    its [prizeAmount] is a string that does not parse as a number; the
    prize is discarded without a message, yet the row is not classified as
    valid: its [websiteUrl] fails the URL check, so it goes to the error
    set. *)
Lemma non_numeric_row_can_be_invalid :
  get word_prize_row "prizeAmount" = VStr "abc"
  ∧ PrimFloat.is_nan (@StringToNumber sample_platform "abc") = true
  ∧ is_missing (get word_prize_row "title") = false
  ∧ isValid (@validate sample_platform
               (@convert_types sample_platform word_prize_row)) = false
  ∧ @handleParse sample_platform [word_prize_row]
    = ([], [ {| row := @convert_types sample_platform word_prize_row;
                error := "Invalid value for field: websiteUrl" |} ]).
Proof. repeat split; vm_compute; reflexivity. Qed.

(** ** The foreign-key resolvers *)

Section Resolvers.
Context `{Platform} {W : Type} (B : Backend W).

(** On any backend: a falsy name sends nothing; any other name sends one
    query, and the answer is read off its [data]. *)
Lemma resolve_by_name_traced (table column filter : string) (name : value)
    (w : W) (sent : list request) :
  @resolve_by_name _ _ (traced B) table column filter name (w, sent)
  = if truthy name then
      let (answer, w') :=
        select_ilike_single table column filter (ToString name) w in
      (match answer with
       | Returned (Some o) => Returned (or_null (get o column))
       | Returned None => Returned VNull
       | Thrown e => Thrown e
       end,
       (w', (sent ++ [ReqSelect table column filter (ToString name)])%list))
    else (Returned VNull, (w, sent)).
Proof.
  unfold resolve_by_name. destruct (truthy name); [|reflexivity].
  unfold bind, ret. simpl.
  destruct (select_ilike_single table column filter (ToString name) w)
    as [[[o|]|e] w']; reflexivity.
Qed.

(** What a resolver does with the answer of its one lookup. *)
Lemma resolve_by_name_answer (table column filter name : string) (w : W)
    (sent : list request) :
  is_empty name = false →
  ∃ (answer : outcome (option obj)) (w' : W),
    select_ilike_single table column filter name w = (answer, w')
    ∧ (@resolve_by_name _ _ (traced B) table column filter (VStr name)
         (w, sent)).2
      = (w', (sent ++ [ReqSelect table column filter name])%list)
    ∧ (∀ (o : obj) (key : value),
          answer = Returned (Some o) → o !! column = Some key →
          is_undefined key = false → is_null key = false →
          (@resolve_by_name _ _ (traced B) table column filter (VStr name)
             (w, sent)).1
          = Returned key)
    ∧ (∀ o : obj,
          answer = Returned (Some o) →
          is_undefined (get o column) = true ∨ is_null (get o column) = true →
          (@resolve_by_name _ _ (traced B) table column filter (VStr name)
             (w, sent)).1
          = Returned VNull)
    ∧ (answer = Returned None →
       (@resolve_by_name _ _ (traced B) table column filter (VStr name)
          (w, sent)).1
       = Returned VNull)
    ∧ (∀ e : exn,
          answer = Thrown e →
          (@resolve_by_name _ _ (traced B) table column filter (VStr name)
             (w, sent)).1
          = Thrown e).
Proof.
  intros Hname. rewrite resolve_by_name_traced.
  cbn [truthy ToString]. rewrite Hname. cbn [negb].
  destruct (select_ilike_single table column filter name w)
    as [answer w'] eqn:Hq.
  exists answer, w'. split; [reflexivity|]. split; [reflexivity|].
  cbn [fst]. split; [|split; [|split]].
  - intros o key -> Hkey Hundef Hnull. unfold get. rewrite Hkey.
    destruct key; try discriminate; reflexivity.
  - intros o -> Hkey.
    destruct (get o column); destruct Hkey as [Hkey|Hkey];
      try discriminate; reflexivity.
  - intros ->. reflexivity.
  - intros e ->. reflexivity.
Qed.

(** C5, as the code has it.  On any backend, each resolver answers null
    for the empty name and sends nothing.  For any other name it sends
    exactly one lookup, the case-insensitive [ilike] query of the name on
    the name column of its table, and reads the [data] of the response:
    it answers the primary key of the row when the response has a row
    with a key, and null when the row has no key or the response has no
    row, whatever the reason (no row matches, or several do and the
    client reports it).  It never chooses among rows, and it throws only
    what the query itself throws. *)
Theorem resolvers_lookup (name : string) (w : W) (sent : list request) :
  let resolves (table column filter : string)
        (run : outcome value * (W * list request)) : Prop :=
    (is_empty name = true → run = (Returned VNull, (w, sent)))
    ∧ (is_empty name = false →
       ∃ (answer : outcome (option obj)) (w' : W),
         select_ilike_single table column filter name w = (answer, w')
         ∧ run.2 = (w', (sent ++ [ReqSelect table column filter name])%list)
         ∧ (∀ (o : obj) (key : value),
               answer = Returned (Some o) → o !! column = Some key →
               is_undefined key = false → is_null key = false →
               run.1 = Returned key)
         ∧ (∀ o : obj,
               answer = Returned (Some o) →
               is_undefined (get o column) = true
               ∨ is_null (get o column) = true →
               run.1 = Returned VNull)
         ∧ (answer = Returned None → run.1 = Returned VNull)
         ∧ (∀ e : exn, answer = Thrown e → run.1 = Thrown e)) in
  resolves "university" "id" "name"
    (@resolveUniversityId _ _ (traced B) (VStr name) (w, sent))
  ∧ resolves "organizer" "orgId" "orgName"
      (@resolveOrganizerId _ _ (traced B) (VStr name) (w, sent))
  ∧ resolves "competition" "id" "title"
      (@resolveCompetitionId _ _ (traced B) (VStr name) (w, sent)).
Proof.
  cbv zeta. unfold resolveUniversityId, resolveOrganizerId,
    resolveCompetitionId.
  assert (∀ table column filter : string,
            is_empty name = true →
            @resolve_by_name _ _ (traced B) table column filter (VStr name)
              (w, sent)
            = (Returned VNull, (w, sent))) as Hempty.
  { intros table column filter Hname. rewrite resolve_by_name_traced.
    cbn [truthy]. rewrite Hname. reflexivity. }
  repeat split; try (apply Hempty); apply resolve_by_name_answer.
Qed.
End Resolvers.

(** On the sample store.  On the client that reports, a name that no
    row or several rows match resolves to null; on the client that
    rejects, the rejection of the several matches comes out of the
    resolver. *)
Example resolveUniversityId_examples :
  (@resolveUniversityId sample_platform _ (traced Store.reporting_backend)
     (VStr "") (two_mits, [])).1 = Returned VNull
  ∧ (@resolveUniversityId sample_platform _ (traced Store.reporting_backend)
       (VStr "rotman") (two_mits, [])).1 = Returned (VStr "u3")
  ∧ (@resolveUniversityId sample_platform _ (traced Store.reporting_backend)
       (VStr "Ivey") (two_mits, [])).1 = Returned VNull
  ∧ (@resolveUniversityId sample_platform _ (traced Store.reporting_backend)
       (VStr "mit") (two_mits, [])).1 = Returned VNull
  ∧ (@resolveUniversityId sample_platform _ (traced Store.store_backend)
       (VStr "rotman") (two_mits, [])).1 = Returned (VStr "u3")
  ∧ (@resolveUniversityId sample_platform _ (traced Store.store_backend)
       (VStr "mit") (two_mits, [])).1 = Thrown Store.AMBIGUOUS.
Proof. repeat split; vm_compute; reflexivity. Qed.

(** C5, as stated, fails.  In the store of [two_mits] two universities
    match the name "mit".  The client reports that in the [error] of its
    response and gives no [data]; the resolver reads only [data], so it
    answers null, as it does when no row matches.  It has sent its one
    lookup, it does not throw, and it chooses neither match. *)
Lemma several_matches_resolve_to_null :
  Store.matching two_mits "university" "name" "mit"
  = [ {[ "id" := VStr "u1"; "name" := VStr "MIT" ]};
      {[ "id" := VStr "u2"; "name" := VStr "Mit" ]} ]
  ∧ @resolveUniversityId sample_platform _ (traced Store.reporting_backend)
      (VStr "mit") (two_mits, [])
    = (Returned VNull,
       (two_mits, [ReqSelect "university" "id" "name" "mit"]))
  ∧ ∀ (e : exn) (s : Store.db * list request),
      @resolveUniversityId sample_platform _ (traced Store.reporting_backend)
        (VStr "mit") (two_mits, [])
      ≠ (Thrown e, s).
Proof.
  split; [vm_compute; reflexivity|].
  assert (@resolveUniversityId sample_platform _
            (traced Store.reporting_backend) (VStr "mit") (two_mits, [])
          = (Returned VNull,
             (two_mits, [ReqSelect "university" "id" "name" "mit"]))) as Hrun
    by (vm_compute; reflexivity).
  split; [exact Hrun|].
  intros e s Heq. rewrite Hrun in Heq. discriminate Heq.
Qed.

(** ** Submitting the valid rows *)

Section Submission.
Context `{Platform} {W : Type} (B : Backend W).

Lemma after_nil (p : page (W * list request)) :
  after p (world p).1 [] = p.
Proof.
  destruct p as [[w sent] valid lg sub]. unfold after, sent_by. simpl.
  rewrite app_nil_r. reflexivity.
Qed.

Lemma after_after (p : page (W * list request)) (w1 w2 : W)
    (s1 s2 : list request) :
  after (after p w1 s1) w2 s2 = after p w2 (s1 ++ s2).
Proof. unfold after, sent_by. simpl. rewrite app_assoc. reflexivity. Qed.

Lemma getNow_run (p : page (W * list request)) :
  ∃ (ts : string) (w' : W),
    @remote _ string (@getNow _ (traced B)) p = (Returned ts, after p w' []).
Proof.
  destruct p as [[w sent] valid lg sub].
  unfold remote, zoom, getNow, effect, after, sent_by, set_world. simpl.
  destruct (now_iso w) as [ts w']. exists ts, w'.
  rewrite app_nil_r. reflexivity.
Qed.

Lemma generateId_run (p : page (W * list request)) :
  ∃ (id : string) (w' : W),
    @remote _ string (@generateId _ (traced B)) p
    = (Returned id, after p w' []).
Proof.
  destruct p as [[w sent] valid lg sub].
  unfold remote, zoom, generateId, effect, after, sent_by, set_world. simpl.
  destruct (uuidv4 w) as [id w']. exists id, w'.
  rewrite app_nil_r. reflexivity.
Qed.

(** A foreign-key step sends at most one lookup; it either goes on with a
    payload or throws what the lookup threw. *)
Lemma resolve_into_run (field table column filter : string) (name : value)
    (payload : obj) (p : page (W * list request)) :
  ∃ (seg : list request) (w' : W),
    Forall is_select seg
    ∧ ((∃ payload' : obj,
          @resolve_into _ field
            (@resolve_by_name _ _ (traced B) table column filter) name payload p
          = (Returned payload', after p w' seg))
       ∨ (∃ (e : exn) (w0 : W),
            @resolve_into _ field
              (@resolve_by_name _ _ (traced B) table column filter) name
              payload p
            = (Thrown e, after p w' seg)
            ∧ seg = [ReqSelect table column filter (ToString name)]
            ∧ select_ilike_single table column filter (ToString name) w0
              = (Thrown e, w'))).
Proof.
  unfold resolve_into. destruct (truthy name) eqn:Hname.
  - destruct p as [[w sent] valid lg sub].
    unfold bind, remote, zoom. cbn [world]. rewrite resolve_by_name_traced.
    rewrite Hname.
    unfold after, sent_by, set_world, ret.
    cbn [world snd validRows logs isSubmitting].
    destruct (select_ilike_single table column filter (ToString name) w)
      as [[data|e] w'] eqn:Hq.
    + exists [ReqSelect table column filter (ToString name)], w'.
      split; [repeat constructor|]. left.
      destruct data; eexists; reflexivity.
    + exists [ReqSelect table column filter (ToString name)], w'.
      split; [repeat constructor|]. right. exists e, w. auto.
  - exists [], (world p).1. split; [constructor|]. left. exists payload.
    unfold ret. rewrite after_nil. reflexivity.
Qed.

Lemma insert_run (payload : obj) (p : page (W * list request)) :
  ∃ (answer : outcome (option string)) (w' : W),
    @remote _ _ (@insert_into _ (traced B) "competition" [payload]) p
    = (answer, after p w' [ReqInsert "competition" [payload]])
    ∧ insert_into "competition" [payload] (world p).1 = (answer, w').
Proof.
  destruct p as [[w sent] valid lg sub].
  unfold remote, zoom, after, sent_by, set_world. simpl.
  destruct (insert_into "competition" [payload] w) as [answer w'].
  exists answer, w'. auto.
Qed.

Lemma setLogs_after (p : page (W * list request)) (w' : W)
    (seg : list request) (entry : LogEntry) :
  @setLogs (W * list request) entry (after p w' seg)
  = (Returned tt, logged p w' seg entry).
Proof. reflexivity. Qed.

(** The [catch] clause of [submitRow], from any page the [try] block can
    have reached. *)
Lemma catch_run (row : obj) (i : nat) (e : exn)
    (p : page (W * list request)) (w1 : W) (seg : list request) :
  ∃ (ts : string) (w' : W),
    (ts <~ @remote _ string (@getNow _ (traced B)) ;;
     (@setLogs (W * list request) (error_entry i ts e row) ;;;
      ret false))%async (after p w1 seg)
    = (Returned false, logged p w' seg (error_entry i ts e row)).
Proof.
  destruct (getNow_run (after p w1 seg)) as (ts & w' & Hnow).
  exists ts, w'. unfold bind at 1. rewrite Hnow, after_after, app_nil_r.
  unfold bind. rewrite setLogs_after. reflexivity.
Qed.

Lemma bind_returned {S A C} (c : M S A) (k : A → M S C) (s s' : S) (a : A) :
  c s = (Returned a, s') → bind c k s = k a s'.
Proof. intros Hc. unfold bind. rewrite Hc. reflexivity. Qed.

Lemma bind_thrown {S A C} (c : M S A) (k : A → M S C) (s s' : S) (e : exn) :
  c s = (Thrown e, s') → bind c k s = (Thrown e, s').
Proof. intros Hc. unfold bind. rewrite Hc. reflexivity. Qed.

Ltac returned Hc := rewrite (bind_returned _ _ _ _ _ Hc); cbv beta zeta.
Ltac thrown Hc := rewrite (bind_thrown _ _ _ _ _ Hc); cbv beta zeta.

(** [submitRow] never throws: it logs one entry and sends the requests of
    one attempt. *)
Lemma submitRow_run (row : obj) (i : nat) (p : page (W * list request)) :
  ∃ (b : bool) (entry : LogEntry) (seg : list request) (w' : W),
    @submitRow _ _ (traced B) row i p = (Returned b, logged p w' seg entry)
    ∧ attempt B row i entry seg.
Proof.
  destruct (getNow_run p) as (now & w1 & Hnow).
  destruct (generateId_run (after p w1 [])) as (id & w2 & Hid).
  rewrite after_after in Hid. cbn [app] in Hid.
  destruct (resolve_into_run "universityId" "university" "id" "name"
              (get row "universityName")
              (applyDefaults row (submit_defaults id now)) (after p w2 []))
    as (seg1 & w3 & Hsel1 & Hres1).
  rewrite after_after in Hres1. cbn [app] in Hres1.
  unfold submitRow, resolveUniversityId, resolveOrganizerId, try_catch.
  destruct Hres1 as [[payload1 Hres1] | (e & w0 & Hres1 & Hseg & Hq)].
  2: { destruct (catch_run row i e p w3 seg1) as (ts & w' & Hcatch).
       exists false, (error_entry i ts e row), seg1, w'. split.
       - returned Hnow. returned Hid. thrown Hres1. exact Hcatch.
       - subst seg1.
         exact (attempt_lookup_threw B row i ts e _ _ _ _ [] w0 w3
                  (List.Forall_nil _) Hq). }
  destruct (resolve_into_run "organizerId" "organizer" "orgId" "orgName"
              (get row "organizerName") payload1 (after p w3 seg1))
    as (seg2 & w4 & Hsel2 & Hres2).
  rewrite after_after in Hres2.
  destruct Hres2 as [[payload2 Hres2] | (e & w0 & Hres2 & Hseg & Hq)].
  2: { destruct (catch_run row i e p w4 (seg1 ++ seg2)) as (ts & w' & Hcatch).
       exists false, (error_entry i ts e row), (seg1 ++ seg2)%list, w'. split.
       - returned Hnow. returned Hid. returned Hres1. thrown Hres2.
         exact Hcatch.
       - subst seg2.
         exact (attempt_lookup_threw B row i ts e _ _ _ _ seg1 w0 w4 Hsel1 Hq). }
  destruct (insert_run (clean_payload payload2) (after p w4 (seg1 ++ seg2)))
    as (answer & w5 & Hins & Hanswer).
  rewrite after_after in Hins.
  assert (Forall is_select (seg1 ++ seg2)) as Hsel
    by (apply Forall_app; auto).
  destruct answer as [[message|]|e].
  - destruct (catch_run row i (ErrorObject message) p w5
                ((seg1 ++ seg2) ++ [ReqInsert "competition"
                                      [clean_payload payload2]]))
      as (ts & w' & Hcatch).
    eexists false, _, _, w'. split.
    + returned Hnow. returned Hid. returned Hres1. returned Hres2.
      returned Hins. unfold throw. exact Hcatch.
    + exact (attempt_refused B row i ts message _ _ _ _ Hsel Hanswer).
  - destruct (getNow_run (after p w5
                ((seg1 ++ seg2) ++ [ReqInsert "competition"
                                      [clean_payload payload2]])))
      as (ts & w' & Hts).
    rewrite after_after, app_nil_r in Hts.
    eexists true, _, _, w'. split.
    + returned Hnow. returned Hid. returned Hres1. returned Hres2.
      returned Hins. returned Hts. unfold bind. rewrite setLogs_after.
      reflexivity.
    + exact (attempt_inserted B row i ts _ _ _ _ Hsel Hanswer).
  - destruct (catch_run row i e p w5
                ((seg1 ++ seg2) ++ [ReqInsert "competition"
                                      [clean_payload payload2]]))
      as (ts & w' & Hcatch).
    eexists false, _, _, w'. split.
    + returned Hnow. returned Hid. returned Hres1. returned Hres2.
      thrown Hins. exact Hcatch.
    + exact (attempt_insert_threw B row i ts e _ _ _ _ Hsel Hanswer).
Qed.

Lemma submit_from_run (rows : list obj) (i : nat)
    (p : page (W * list request)) :
  ∃ (entries : list LogEntry) (segs : list (list request)) (w' : W),
    @submit_from _ _ (traced B) rows i p
    = (Returned tt, finished p w' segs entries)
    ∧ attempts B rows i entries segs.
Proof.
  revert i p. induction rows as [|row rest IH]; intros i p.
  - exists [], [], (world p).1. split; [|constructor].
    destruct p as [[w sent] valid lg sub]. unfold finished, sent_by. simpl.
    unfold ret. rewrite !app_nil_r. reflexivity.
  - destruct (submitRow_run row i p) as (b & entry & seg & w1 & Hrow & Hatt).
    destruct (IH (S i) (logged p w1 seg entry))
      as (entries & segs & w2 & Hrest & Hatts).
    exists (entry :: entries), (seg :: segs), w2. split.
    + cbn [submit_from]. returned Hrow. rewrite Hrest.
      unfold finished, logged, sent_by. simpl.
      rewrite <- !app_assoc. reflexivity.
    + constructor; assumption.
Qed.



Lemma inserts_selects (selects : list request) :
  Forall is_select selects → inserts selects = 0.
Proof.
  unfold inserts. induction 1 as [|q qs Hq _ IH]; simpl; [reflexivity|].
  rewrite Hq. exact IH.
Qed.

Lemma inserts_app (a b : list request) :
  inserts (a ++ b) = inserts a + inserts b.
Proof. unfold inserts. rewrite List.filter_app, length_app. reflexivity. Qed.

(** What an attempt leaves behind: an entry with the index of the row,
    never "skipped"; one insert for a success; for a failure at most one
    insert, and an error entry with a message and the row. *)
Lemma attempt_summary (row : obj) (i : nat) (entry : LogEntry)
    (seg : list request) :
  attempt B row i entry seg →
  rowIndex entry = i
  ∧ (Types.status entry = Success ∧ inserts seg = 1
     ∨ Types.status entry = Error ∧ (inserts seg ≤ 1)%nat
       ∧ payload entry = Some row
       ∧ ∃ e : exn, message entry = Some (error_message e)).
Proof.
  intros [ts payload selects w w' Hsel _
         | ts message payload selects w w' Hsel _
         | ts e payload selects w w' Hsel _
         | ts e table column filter name selects w w' Hsel _];
    rewrite inserts_app, (inserts_selects selects Hsel); simpl;
    (split; [reflexivity|]).
  - left. auto.
  - right. split; [reflexivity|]. split; [unfold inserts; simpl; lia|].
    split; [reflexivity|]. exists (ErrorObject message). reflexivity.
  - right. split; [reflexivity|]. split; [unfold inserts; simpl; lia|].
    split; [reflexivity|]. exists e. reflexivity.
  - right. split; [reflexivity|]. split; [unfold inserts; simpl; lia|].
    split; [reflexivity|]. exists e. reflexivity.
Qed.



End Submission.


(** The run of that page.  The name of the first row matches two
    universities, the client reports it and gives no row, and the row is
    sent with a null [universityId]; its insert is refused, for its
    identifier is taken, and the entry carries the message of the refusal
    and the row.  The second row is inserted all the same. *)
Example crowded_page_run :
  ∃ (w' : Store.db) (first second : obj),
    @handleSubmitValid sample_platform _ (traced Store.reporting_backend)
      crowded_page
    = (Returned tt,
       {| world := (w', [ ReqSelect "university" "id" "name" "MIT";
                          ReqInsert "competition" [first];
                          ReqInsert "competition" [second] ]);
          validRows := [];
          logs := [ error_entry 0 "2025-01-01T00:00:00.000Z"
                      (ErrorObject Store.DUPLICATE) mit_row;
                    {| rowIndex := 1; Types.status := Success;
                       timestamp := "2025-01-01T00:00:00.000Z";
                       message := Some ("Competition " ++ DQUOTE
                                        ++ "Second Cup" ++ DQUOTE
                                        ++ " inserted successfully");
                       payload := None |} ];
          isSubmitting := false |})
    ∧ get first "universityId" = VNull
    ∧ get first "title" = VStr "Case Cup"
    ∧ get second "title" = VStr "Second Cup"
    ∧ map (λ r : obj, get r "title") (Store.rows_of w' "competition")
      = [VStr "Old Cup"; VStr "Second Cup"].
Proof.
  eexists. eexists. eexists. split; [vm_compute; reflexivity|].
  repeat split; vm_compute; reflexivity.
Qed.

(** What the first hypothesis of the theorem keeps out.  On a client
    whose lookup rejects, here for the two universities that match, the
    attempt ends at the lookup, inside the [try] block: the row gets an
    error entry with the message of the rejection, and no insert is
    sent. *)
Example rejected_lookup_sends_no_insert :
  ∃ w' : Store.db,
    @handleSubmitValid sample_platform _ (traced Store.store_backend) mit_page
    = (Returned tt,
       {| world := (w', [ReqSelect "university" "id" "name" "MIT"]);
          validRows := [];
          logs := [ error_entry 0 "2025-01-01T00:00:00.000Z" Store.AMBIGUOUS
                      mit_row ];
          isSubmitting := false |})
    ∧ inserts [ReqSelect "university" "id" "name" "MIT"] = 0.
Proof.
  eexists. split; [vm_compute; reflexivity | reflexivity].
Qed.

(** ** The text-shortening endpoint *)

Section Endpoint.
Context {W : Type} `{OpenAI W}.

(** Without a key the answer is 503, whatever the request holds: the body
    is not even read. *)
Lemma POST_not_configured (e : env) (req : Request) (w : W) :
  isOpenAIEnabled e = false →
  POST e req w = (Returned not_configured, w).
Proof. intros He. unfold POST, try_catch. rewrite He. reflexivity. Qed.

(** A body that does not parse gives 500. *)
Lemma POST_unparsable (e : env) (x : exn) (w : W) :
  isOpenAIEnabled e = true →
  POST e {| json_body := Thrown x |} w = (Returned internal_error, w).
Proof. intros He. unfold POST, try_catch. rewrite He. reflexivity. Qed.

(** A parsed body other than [null] without a truthy [longDescription]
    gives 400. *)
Lemma POST_missing_input (e : env) (parsed : json) (w : W) :
  isOpenAIEnabled e = true →
  parsed ≠ JNull →
  json_truthy (longDescription_of parsed) = false →
  POST e {| json_body := Returned parsed |} w = (Returned missing_input, w).
Proof.
  intros He Hnull Hfalsy. unfold POST, try_catch, bind, lift. rewrite He.
  simpl.
  destruct parsed as [|b|x|s|items|members]; try reflexivity;
    [congruence|].
  simpl in *. destruct (member "longDescription" members) as [text|];
    [|reflexivity].
  simpl in Hfalsy. rewrite Hfalsy. reflexivity.
Qed.

Lemma generateShortDescription_run (e : env) (text : json) (w : W) :
  isOpenAIEnabled e = true →
  generateShortDescription e text w
  = match chat_completion_content text w with
    | (Returned content, w') => (Returned (usable content), w')
    | (Thrown _, w') => (Returned None, w')
    end.
Proof.
  intros He. unfold generateShortDescription.
  unfold isOpenAIEnabled in He. rewrite He. simpl.
  unfold try_catch, bind, ret.
  destruct (chat_completion_content text w) as [[content|x] w']; reflexivity.
Qed.

Lemma usable_nonempty (content : option string) (short : string) :
  usable content = Some short → is_empty short = false.
Proof.
  unfold usable. destruct content as [c|]; [|discriminate].
  destruct (is_empty (trim c)) eqn:Hc; [discriminate|].
  intros Heq. injection Heq as <-. exact Hc.
Qed.

(** With a key and a truthy [longDescription]: 200 with the trimmed text
    when the service gives a usable one, 500 when it gives none or
    throws. *)
Lemma POST_generates (e : env) (parsed text : json) (w : W) :
  isOpenAIEnabled e = true →
  parsed ≠ JNull →
  longDescription_of parsed = Some text →
  json_truthy (Some text) = true →
  POST e {| json_body := Returned parsed |} w
  = match chat_completion_content text w with
    | (Returned content, w') =>
        match usable content with
        | Some short =>
            (Returned {| status := 200; body := ShortDescriptionBody short |},
             w')
        | None => (Returned generation_failed, w')
        end
    | (Thrown _, w') => (Returned generation_failed, w')
    end.
Proof.
  intros He Hnull Htext Htruthy.
  unfold POST, try_catch, bind at 1, lift. rewrite He. simpl.
  destruct parsed as [|b|x|s|items|members]; try discriminate.
  simpl in Htext, Htruthy. unfold bind at 1. simpl.
  rewrite Htext, Htruthy. simpl.
  unfold bind. rewrite (generateShortDescription_run e text w He).
  destruct (chat_completion_content text w) as [[content|x] w'];
    [|reflexivity].
  destruct (usable content) as [short|] eqn:Hshort; [|reflexivity].
  rewrite (usable_nonempty _ _ Hshort). reflexivity.
Qed.

(** C9, where the code departs from it.  With a key configured, a request
    whose body parses to [null] has no [longDescription], but the answer is
    500 "Internal server error", not 400: reading the property of [null]
    throws, and the handler's [catch] answers. *)
Theorem POST_null_body (c : ascii) (key : string) (w : W) :
  longDescription_of JNull = None
  ∧ POST {| OPENAI_API_KEY := Some (String c key) |}
         {| json_body := Returned JNull |} w
    = (Returned internal_error, w)
  ∧ status internal_error = 500.
Proof. repeat split. Qed.
End Endpoint.

(* ===================================================================== *)
(** * Further properties of the code                                      *)
(* ===================================================================== *)

(** ** The parser, cell by cell *)

Lemma forEach_header_other (values headers : list string) (index : nat)
    (r : obj) (h : string) :
  ¬ In h headers → forEach_header values headers index r !! h = r !! h.
Proof.
  revert index r.
  induction headers as [|header rest IH]; intros index r Hnot; simpl;
    [reflexivity|].
  rewrite IH by (intros Hin; apply Hnot; right; exact Hin).
  destruct (values !! index) as [raw|]; [|reflexivity].
  apply assign_lookup_ne. intros ->. apply Hnot. left. reflexivity.
Qed.

Lemma forEach_header_proto (values headers : list string) (index : nat)
    (r : obj) :
  r !! "__proto__" = None →
  forEach_header values headers index r !! "__proto__" = None.
Proof.
  revert index r.
  induction headers as [|header rest IH]; intros index r Hr; simpl;
    [exact Hr|].
  apply IH. destruct (values !! index) as [raw|]; [|exact Hr].
  apply assign_proto, Hr.
Qed.

Lemma forEach_header_lookup (values headers : list string) (index : nat)
    (r : obj) (i : nat) (h : string) :
  List.NoDup headers →
  headers !! i = Some h →
  h ≠ "__proto__" →
  forEach_header values headers index r !! h
  = match values !! (index + i)%nat with
    | Some raw => Some (cell raw)
    | None => r !! h
    end.
Proof.
  intros Hnodup Hi Hplain. revert index r i Hi.
  induction Hnodup as [|header rest Hfresh _ IH]; intros index r i Hi;
    [discriminate|].
  destruct i as [|i]; simpl in Hi.
  - injection Hi as ->. cbn [forEach_header].
    rewrite (forEach_header_other _ _ _ _ _ Hfresh), Nat.add_0_r.
    destruct (values !! index) as [raw|]; [|reflexivity].
    rewrite (assign_lookup_eq _ _ _ Hplain). reflexivity.
  - cbn [forEach_header]. rewrite (IH _ _ i Hi).
    replace (S index + i)%nat with (index + S i)%nat by lia.
    destruct (values !! (index + S i)%nat); [reflexivity|].
    destruct (values !! index) as [raw|]; [|reflexivity].
    apply assign_lookup_ne. intros ->. apply Hfresh.
    apply list_elem_of_In, list_elem_of_lookup. eauto.
Qed.

(** X1. When no header is repeated, the parser maps the pieces of a line
    to the headers by position: the header at position i, unless it is
    named [__proto__], gets the trimmed i-th piece, or undefined when the
    piece is blank; a header beyond the last piece is absent from the row.
    A header named [__proto__] gets nothing: the row never has a property
    of that name. *)
Theorem parse_line_positional (sep : ascii) (headers : list string)
    (line : string) (i : nat) (h : string) :
  List.NoDup headers →
  headers !! i = Some h →
  h ≠ "__proto__" →
  parse_line sep headers line !! h = cell <$> (split sep line !! i)
  ∧ parse_line sep headers line !! "__proto__" = None.
Proof.
  intros Hnodup Hi Hplain. unfold parse_line. split.
  - rewrite (forEach_header_lookup _ _ 0 ∅ i h Hnodup Hi Hplain). simpl.
    destruct (split sep line !! i); [reflexivity | apply lookup_empty].
  - apply forEach_header_proto, lookup_empty.
Qed.

Lemma parse_line_positional_witness :
  List.NoDup ["title"; "__proto__"; "format"]
  ∧ ["title"; "__proto__"; "format"] !! 2%nat = Some "format"
  ∧ "format" ≠ "__proto__"
  ∧ parse_line COMMA ["title"; "__proto__"; "format"]
      "Case Cup, x , VIRTUAL " !! "format"
    = Some (VStr "VIRTUAL")
  ∧ parse_line COMMA ["title"; "__proto__"; "format"]
      "Case Cup, x , VIRTUAL " !! "__proto__"
    = None.
Proof.
  assert (List.NoDup ["title"; "__proto__"; "format"]) as Hnodup.
  { repeat (constructor; [simpl; intuition discriminate|]). constructor. }
  assert (["title"; "__proto__"; "format"] !! 2%nat = Some "format") as Hi
    by reflexivity.
  assert ("format" ≠ "__proto__") as Hplain by discriminate.
  split; [exact Hnodup|]. split; [exact Hi|]. split; [exact Hplain|].
  destruct (parse_line_positional COMMA ["title"; "__proto__"; "format"]
              "Case Cup, x , VIRTUAL " 2 "format" Hnodup Hi Hplain)
    as [Hcell Hproto].
  split; [rewrite Hcell; reflexivity | exact Hproto].
Defined.

Lemma trimEnd_idempotent (s : string) : trimEnd (trimEnd s) = trimEnd s.
Proof.
  induction s as [|c rest IH]; simpl; [reflexivity|].
  destruct (is_white_space c && is_empty (trimEnd rest)) eqn:Hdrop;
    [reflexivity|].
  simpl. rewrite IH, Hdrop. reflexivity.
Qed.

Lemma trimStart_clean (s : string) :
  starts_clean s = true → trimStart s = s.
Proof.
  destruct s as [|c rest]; simpl; [reflexivity|].
  destruct (is_white_space c); [discriminate | reflexivity].
Qed.

Lemma trimStart_starts_clean (s : string) : starts_clean (trimStart s) = true.
Proof.
  induction s as [|c rest IH]; simpl; [reflexivity|].
  destruct (is_white_space c) eqn:Hc; [exact IH|].
  simpl. rewrite Hc. reflexivity.
Qed.

Lemma trimEnd_starts_clean (s : string) :
  starts_clean s = true → starts_clean (trimEnd s) = true.
Proof.
  destruct s as [|c rest]; simpl; [reflexivity|].
  destruct (is_white_space c) eqn:Hc; [discriminate|]. simpl. intros _.
  rewrite Hc. reflexivity.
Qed.

Lemma trim_idempotent (s : string) : trim (trim s) = trim s.
Proof.
  unfold trim.
  rewrite (trimStart_clean (trimEnd (trimStart s)))
    by (apply trimEnd_starts_clean, trimStart_starts_clean).
  apply trimEnd_idempotent.
Qed.

Lemma cell_clean (raw : string) : clean_value (cell raw).
Proof.
  unfold cell, clean_value.
  destruct (is_empty (trim raw)) eqn:Hempty; [left; reflexivity|].
  right. exists (trim raw). auto using trim_idempotent.
Qed.

Lemma forEach_header_clean (values headers : list string) (index : nat)
    (r : obj) :
  (∀ (k : string) (v : value), r !! k = Some v → clean_value v) →
  ∀ (k : string) (v : value),
    forEach_header values headers index r !! k = Some v → clean_value v.
Proof.
  revert index r.
  induction headers as [|header rest IH]; intros index r Hr; simpl;
    [exact Hr|].
  apply IH. destruct (values !! index) as [raw|]; [|exact Hr].
  intros k v. unfold assign.
  destruct (String.eqb header "__proto__"); [apply Hr|].
  rewrite lookup_insert. case_decide.
  - intros Heq. injection Heq as <-. apply cell_clean.
  - apply Hr.
Qed.

(** X2. Whatever the text and the headers, a property of a parsed row
    holds undefined or a string that is not empty and has no white space
    at either end: the parser never stores an empty string. *)
Theorem parsed_values_are_clean (text : string) (headers : list string)
    (r : obj) (k : string) (v : value) :
  In r (parseDelimitedText text headers) →
  r !! k = Some v →
  clean_value v ∧ is_empty_string v = false ∧ is_null v = false.
Proof.
  intros Hr Hk. rewrite parseDelimitedText_map in Hr.
  apply in_map_iff in Hr as (line & <- & _).
  assert (clean_value v) as Hclean.
  { unfold parse_line in Hk.
    eapply forEach_header_clean; [|exact Hk].
    intros k' v'. rewrite lookup_empty. discriminate. }
  split; [exact Hclean|].
  destruct Hclean as [->|(s & -> & Hs & _)]; simpl; auto.
Qed.

Lemma parsed_values_are_clean_witness :
  In ({[ "title" := VStr "Title B" ]} : obj)
     (parseDelimitedText two_titles ["title"; "format"])
  ∧ ({[ "title" := VStr "Title B" ]} : obj) !! "title" = Some (VStr "Title B")
  ∧ clean_value (VStr "Title B").
Proof.
  assert (In ({[ "title" := VStr "Title B" ]} : obj)
             (parseDelimitedText two_titles ["title"; "format"])) as Hr.
  { right. left. vm_compute. reflexivity. }
  assert (({[ "title" := VStr "Title B" ]} : obj) !! "title"
          = Some (VStr "Title B")) as Hk by reflexivity.
  split; [exact Hr|]. split; [exact Hk|].
  exact (proj1 (parsed_values_are_clean two_titles ["title"; "format"]
                  _ "title" _ Hr Hk)).
Defined.

Lemma split_white_space_inv (sep : ascii) (s : string) :
  is_white_space sep = true →
  Forall (λ piece, all_white_space piece = true) (split sep s) →
  all_white_space s = true.
Proof.
  intros Hsep. induction s as [|c rest IH]; simpl; [reflexivity|].
  destruct (Ascii.eqb c sep) eqn:Hc.
  - apply Ascii.eqb_eq in Hc as ->. rewrite Hsep. simpl.
    intros Hall. inversion Hall; subst. auto.
  - destruct (split sep rest) as [|piece pieces].
    + intros Hall. inversion Hall as [|? ? Hpiece _]; subst.
      simpl in Hpiece. apply andb_prop in Hpiece as [-> _]. simpl.
      apply IH. constructor.
    + intros Hall. inversion Hall as [|? ? Hpiece Hrest]; subst.
      simpl in Hpiece. apply andb_prop in Hpiece as [-> Hpiece]. simpl.
      apply IH. constructor; assumption.
Qed.

Lemma nonempty_lines_nil (text : string) :
  nonempty_lines text = [] ↔ all_white_space text = true.
Proof.
  split.
  - intros Hnil. apply (split_white_space_inv LF); [reflexivity|].
    unfold nonempty_lines in Hnil.
    induction (split LF text) as [|piece pieces IH]; [constructor|].
    simpl in Hnil. rewrite trim_empty in Hnil.
    destruct (all_white_space piece) eqn:Hpiece; [|discriminate].
    constructor; auto.
  - intros Hws. apply nonempty_lines_blank. rewrite trim_empty. exact Hws.
Qed.

(** X3. The parser returns no row exactly when the text is blank, that is
    when every code unit of it is white space (the empty text included);
    and exactly then the paste box returns without handing anything over.
    A text with any other code unit gives at least one row. *)
Theorem parse_blank_text (text : string) (headers : list string) :
  (parseDelimitedText text headers = [] ↔ all_white_space text = true)
  ∧ (PasteTable.handleParse text headers = None
     ↔ all_white_space text = true).
Proof.
  rewrite <- nonempty_lines_nil, PasteTable_handleParse.
  rewrite parseDelimitedText_map. split.
  - destruct (nonempty_lines text); simpl; split; congruence.
  - destruct (nonempty_lines text); simpl; split; congruence.
Qed.

(** ** Validation, in both directions *)

Lemma missing_message_inj (f g : string) :
  missing_message f = missing_message g → f = g.
Proof. unfold missing_message. intros Heq. injection Heq as Heq. exact Heq. Qed.

Lemma required_errors_In (r : obj) (requiredFields : list string)
    (f : string) :
  In (missing_message f) (required_errors r requiredFields)
  ↔ In f requiredFields ∧ is_missing (get r f) = true.
Proof.
  unfold required_errors. rewrite in_map_iff. split.
  - intros (g & Hg & Hin). apply missing_message_inj in Hg as ->.
    apply filter_In in Hin. exact Hin.
  - intros Hf. exists f. split; [reflexivity | apply filter_In; exact Hf].
Qed.

Lemma required_errors_nil (r : obj) (requiredFields : list string) :
  required_errors r requiredFields = []
  ↔ ∀ f : string, In f requiredFields → is_missing (get r f) = false.
Proof.
  split.
  - intros Hnil f Hf. destruct (is_missing (get r f)) eqn:Hm; [|reflexivity].
    assert (In (missing_message f) (required_errors r requiredFields)) as Hin
      by (apply required_errors_In; auto).
    rewrite Hnil in Hin. destruct Hin.
  - intros Hall. unfold required_errors.
    induction requiredFields as [|f rest IH]; simpl; [reflexivity|].
    rewrite (Hall f) by (left; reflexivity). apply IH.
    intros g Hg. apply Hall. right. exact Hg.
Qed.

Lemma type_errors_nil (r : obj) (entries : validators) :
  type_errors r entries = []
  ↔ ∀ (f : string) (check : value → bool),
      In (f, Some check) entries →
      is_undefined (get r f) = false → is_null (get r f) = false →
      check (get r f) = true.
Proof.
  induction entries as [|[g validator] rest IH]; simpl.
  - split; [intros _ f check [] | reflexivity].
  - unfold reaches_validator. simpl. split.
    + intros Hnil f check [Heq|Hin] Hu Hn.
      * injection Heq as -> ->. rewrite Hu, Hn in Hnil. simpl in Hnil.
        destruct (check (get r f)); [reflexivity | discriminate].
      * apply IH; [|exact Hin|exact Hu|exact Hn].
        destruct (is_undefined (get r g) || is_null (get r g));
          [exact Hnil|].
        destruct validator as [c|]; [|exact Hnil].
        destruct (c (get r g)); [exact Hnil | discriminate].
    + intros Hall.
      assert (type_errors r rest = []) as Hrest.
      { apply IH. intros f check Hin. apply Hall. right. exact Hin. }
      destruct (is_undefined (get r g)) eqn:Hu; simpl; [exact Hrest|].
      destruct (is_null (get r g)) eqn:Hn; simpl; [exact Hrest|].
      destruct validator as [c|]; [|exact Hrest].
      rewrite (Hall g c) by auto. exact Hrest.
Qed.

Lemma validateRow_valid (r : obj) (requiredFields : list string)
    (typeValidations : validators) :
  isValid (validateRow r requiredFields typeValidations) = true
  ↔ required_errors r requiredFields = []
    ∧ type_errors r typeValidations = [].
Proof.
  rewrite validateRow_isValid, validateRow_errors. split.
  - intros Hnil. apply app_eq_nil in Hnil. exact Hnil.
  - intros [-> ->]. reflexivity.
Qed.

(** X4. [validateRow] answers valid exactly when no required field is
    unset, null or the empty string, and every field of the mapping whose
    value is neither undefined nor null passes its predicate. *)
Theorem validateRow_valid_iff (r : obj) (requiredFields : list string)
    (typeValidations : validators) :
  isValid (validateRow r requiredFields typeValidations) = true
  ↔ (∀ f : string, In f requiredFields → is_missing (get r f) = false)
    ∧ (∀ (f : string) (check : value → bool),
          In (f, Some check) typeValidations →
          is_undefined (get r f) = false → is_null (get r f) = false →
          check (get r f) = true).
Proof.
  rewrite validateRow_valid, required_errors_nil, type_errors_nil.
  reflexivity.
Qed.

Lemma get_insert (r : obj) (f g : string) (v : value) :
  get (<[f := v]> r) g = if String.eqb f g then v else get r g.
Proof.
  unfold get. rewrite lookup_insert. case_decide as Hfg.
  - subst. rewrite String.eqb_refl. reflexivity.
  - apply String.eqb_neq in Hfg. rewrite Hfg. reflexivity.
Qed.

Lemma type_errors_failing (r : obj) (entries : validators) (f : string)
    (check : value → bool) :
  In (f, Some check) entries →
  is_undefined (get r f) = false → is_null (get r f) = false →
  check (get r f) = false →
  In (invalid_message f) (type_errors r entries).
Proof.
  intros Hin Hu Hn Hfail.
  induction entries as [|[g validator] rest IH]; [destruct Hin|].
  destruct Hin as [Heq|Hin].
  - injection Heq as -> ->. simpl. unfold reaches_validator. simpl.
    rewrite Hu, Hn. simpl. rewrite Hfail. left. reflexivity.
  - specialize (IH Hin). simpl. unfold reaches_validator. simpl.
    destruct (is_undefined (get r g) || is_null (get r g)); [exact IH|].
    destruct validator as [c|]; [|exact IH].
    destruct (c (get r g)); [exact IH | right; exact IH].
Qed.

(** X5. Correcting the flagged field is enough.  When every message of a
    row's validation names the one field f (as missing or as invalid),
    the row with f set to a value that is not missing and passes the
    predicates of f validates. *)
Theorem fixing_the_flagged_field (r : obj) (requiredFields : list string)
    (typeValidations : validators) (f : string) (v : value) :
  (∀ msg : string,
      In msg (errors (validateRow r requiredFields typeValidations)) →
      msg = "Missing required field: " ++ f
      ∨ msg = "Invalid value for field: " ++ f) →
  is_missing v = false →
  (∀ check : value → bool, In (f, Some check) typeValidations →
      check v = true) →
  isValid (validateRow (<[f := v]> r) requiredFields typeValidations) = true.
Proof.
  intros Honly Hv Hchecks.
  apply validateRow_valid. rewrite required_errors_nil, type_errors_nil.
  split.
  - intros g Hg. rewrite get_insert.
    destruct (String.eqb f g) eqn:Hfg; [exact Hv|].
    apply String.eqb_neq in Hfg.
    destruct (is_missing (get r g)) eqn:Hm; [|reflexivity].
    destruct (Honly (missing_message g)) as [Heq|Heq].
    + rewrite validateRow_errors. apply in_or_app. left.
      apply required_errors_In. auto.
    + apply missing_message_inj in Heq. congruence.
    + destruct (missing_not_invalid _ _ Heq).
  - intros g check Hg. rewrite get_insert.
    destruct (String.eqb f g) eqn:Hfg.
    + apply String.eqb_eq in Hfg as <-. intros _ _. apply Hchecks. exact Hg.
    + apply String.eqb_neq in Hfg. intros Hu Hn.
      destruct (check (get r g)) eqn:Hc; [reflexivity|].
      destruct (Honly (invalid_message g)) as [Heq|Heq].
      * rewrite validateRow_errors. apply in_or_app. right.
        eapply type_errors_failing; eassumption.
      * symmetry in Heq. destruct (missing_not_invalid _ _ Heq).
      * apply invalid_message_inj in Heq. congruence.
Qed.

Lemma fixing_the_flagged_field_witness :
  let r : obj := {[ "format" := VStr "VIRTUAL" ]} in
  (∀ msg : string, In msg (errors (validateRow r ["title"] [])) →
      msg = "Missing required field: " ++ "title"
      ∨ msg = "Invalid value for field: " ++ "title")
  ∧ is_missing (VStr "Case Cup") = false
  ∧ isValid (validateRow (<["title" := VStr "Case Cup"]> r) ["title"] [])
    = true.
Proof.
  cbv zeta.
  assert (∀ msg : string,
            In msg (errors (validateRow
                              ({[ "format" := VStr "VIRTUAL" ]} : obj)
                              ["title"] [])) →
            msg = "Missing required field: " ++ "title"
            ∨ msg = "Invalid value for field: " ++ "title") as Honly.
  { intros msg [<-|[]]. left. reflexivity. }
  assert (is_missing (VStr "Case Cup") = false) as Hv by reflexivity.
  split; [exact Honly|]. split; [exact Hv|].
  apply (fixing_the_flagged_field _ ["title"] [] "title" (VStr "Case Cup")
           Honly Hv).
  intros check [].
Defined.

(** ** Numbers and booleans *)

Section Conversions.
Context `{Platform}.

(** X6. The number check and the number conversion agree: a value is a
    valid number exactly when its conversion is a number other than NaN.
    The conversion gives a number or undefined, gives NaN only for the
    number NaN itself, and converting twice changes nothing. *)
Theorem toNumber_agrees_with_isValidNumber (v : value) :
  (isValidNumber v = true
   ↔ ∃ x : float, toNumber v = VNum x ∧ PrimFloat.is_nan x = false)
  ∧ (toNumber v = VUndefined ∨ ∃ x : float, toNumber v = VNum x)
  ∧ (∀ x : float, toNumber v = VNum x → PrimFloat.is_nan x = true →
        v = VNum x)
  ∧ toNumber (toNumber v) = toNumber v.
Proof.
  assert (∀ w : value, isValidNumber w = false → toNumber w = VUndefined →
            (isValidNumber w = true
             ↔ ∃ x : float, toNumber w = VNum x ∧ PrimFloat.is_nan x = false)
            ∧ (toNumber w = VUndefined ∨ ∃ x : float, toNumber w = VNum x)
            ∧ (∀ x : float, toNumber w = VNum x →
                  PrimFloat.is_nan x = true → w = VNum x)
            ∧ toNumber (toNumber w) = toNumber w) as Hnone.
  { intros w -> ->.
    split; [split; [discriminate | intros (x & Hx & _); discriminate]|].
    split; [left; reflexivity|].
    split; [intros x Hx; discriminate | reflexivity]. }
  destruct v as [| |b|x|s|items]; try (apply Hnone; reflexivity).
  - simpl. split; [split|].
    + intros Hx. exists x. split; [reflexivity|].
      destruct (PrimFloat.is_nan x); [discriminate | reflexivity].
    + intros (y & Hy & Hnan). injection Hy as ->. rewrite Hnan. reflexivity.
    + split; [right; exists x; reflexivity|].
      split; [intros y Hy _; exact Hy | reflexivity].
  - destruct (PrimFloat.is_nan (StringToNumber s)) eqn:Hnan.
    + apply Hnone; simpl; rewrite Hnan; reflexivity.
    + simpl. rewrite Hnan. simpl. split; [split|].
      * intros _. exists (StringToNumber s). auto.
      * reflexivity.
      * split; [right; eexists; reflexivity|].
        split; [|reflexivity].
        intros x Hx Hx'. injection Hx as <-. congruence.
Qed.
End Conversions.

(** X7. On a value the boolean check accepts (a boolean, or the string
    "true" or "false"), the boolean conversion gives the boolean it
    stands for. *)
Theorem toBoolean_of_valid (v : value) :
  isValidBoolean v = true →
  (toBoolean v = true ↔ v = VBool true ∨ v = VStr "true")
  ∧ (toBoolean v = false ↔ v = VBool false ∨ v = VStr "false").
Proof.
  destruct v as [| |b|x|s|items]; simpl; try discriminate.
  - intros _. destruct b; intuition congruence.
  - intros Hs. apply orb_prop in Hs as [Hs|Hs];
      apply String.eqb_eq in Hs as ->; cbv; intuition congruence.
Qed.

Lemma toBoolean_of_valid_witness :
  isValidBoolean (VStr "false") = true ∧ toBoolean (VStr "false") = false.
Proof.
  assert (isValidBoolean (VStr "false") = true) as Hvalid by reflexivity.
  split; [exact Hvalid|].
  apply (proj2 (toBoolean_of_valid (VStr "false") Hvalid)).
  right. reflexivity.
Defined.

(** ** URLs *)

Lemma includes_scheme_state (s : string) (found : string * string) :
  scheme_state s = Some found → includes COLON s = true.
Proof.
  revert found. induction s as [|c s IH]; intros found; simpl;
    [discriminate|].
  destruct (Ascii.eqb c COLON); [reflexivity|]. simpl.
  destruct (is_scheme_char c); [|discriminate].
  destruct (scheme_state s) as [found'|] eqn:Hs; [|discriminate].
  intros _. exact (IH found' eq_refl).
Qed.

Lemma includes_remove_tab_newline (c : ascii) (s : string) :
  includes c (remove_tab_newline s) = true → includes c s = true.
Proof.
  induction s as [|d s IH]; simpl; [auto|].
  destruct (is_tab_or_newline d); simpl.
  - intros Hin. rewrite (IH Hin). apply orb_true_r.
  - destruct (Ascii.eqb d c); [reflexivity|]. exact IH.
Qed.

Lemma includes_strip_c0_end (c : ascii) (s : string) :
  includes c (strip_c0_end s) = true → includes c s = true.
Proof.
  induction s as [|d s IH]; simpl; [auto|].
  destruct (is_c0_or_space d && is_empty (strip_c0_end s));
    simpl; [discriminate|].
  destruct (Ascii.eqb d c); [reflexivity|]. exact IH.
Qed.

Lemma includes_strip_c0_start (c : ascii) (s : string) :
  includes c (strip_c0_start s) = true → includes c s = true.
Proof.
  induction s as [|d s IH]; simpl; [auto|].
  destruct (is_c0_or_space d); simpl; [|auto].
  intros Hin. rewrite (IH Hin). apply orb_true_r.
Qed.

Lemma includes_parse_scheme (s scheme rest : string) :
  parse_scheme s = Some (scheme, rest) → includes COLON s = true.
Proof.
  unfold parse_scheme. intros Hparse.
  apply includes_strip_c0_start, includes_strip_c0_end,
    includes_remove_tab_newline.
  destruct (remove_tab_newline (strip_c0_end (strip_c0_start s)))
    as [|c cleaned]; [discriminate|].
  destruct (is_alpha c); [|discriminate].
  destruct (scheme_state cleaned) as [[scheme' rest']|] eqn:Hs;
    [|discriminate].
  simpl. rewrite (includes_scheme_state _ _ Hs). apply orb_true_r.
Qed.

Lemma append_colon_inj (s t : string) : s ++ ":" = t ++ ":" → s = t.
Proof.
  revert t. induction s as [|c s IH]; intros [|d t] Heq.
  - reflexivity.
  - injection Heq as _ Heq. destruct t; discriminate.
  - injection Heq as _ Heq. destruct s; discriminate.
  - injection Heq as -> Heq. f_equal. exact (IH t Heq).
Qed.

Section Urls.
Context `{Platform}.

(** X8. Whatever the rest of the URL parser does, a string is a valid URL
    only if it contains a colon and the scheme before it, lowered, is
    http or https. *)
Theorem isValidUrl_needs_http_scheme (s : string) :
  isValidUrl (VStr s) = true →
  includes COLON s = true
  ∧ (∃ rest : string,
        parse_scheme s = Some ("http", rest)
        ∨ parse_scheme s = Some ("https", rest)).
Proof.
  unfold isValidUrl, URL_protocol. simpl.
  destruct (parse_scheme s) as [[scheme rest]|] eqn:Hparse;
    [|discriminate].
  destruct (url_rest_parses scheme rest); [|discriminate].
  intros Hprotocol. split; [exact (includes_parse_scheme _ _ _ Hparse)|].
  exists rest. apply orb_prop in Hprotocol as [Hp|Hp];
    apply String.eqb_eq in Hp.
  - left. rewrite (append_colon_inj scheme "http" Hp). reflexivity.
  - right. rewrite (append_colon_inj scheme "https" Hp). reflexivity.
Qed.
End Urls.

Lemma isValidUrl_needs_http_scheme_witness :
  @isValidUrl sample_platform (VStr "HTTPS://casecomp.example/cup") = true
  ∧ parse_scheme "HTTPS://casecomp.example/cup"
    = Some ("https", "//casecomp.example/cup").
Proof.
  assert (@isValidUrl sample_platform (VStr "HTTPS://casecomp.example/cup")
          = true) as Hvalid by reflexivity.
  split; [exact Hvalid|].
  destruct (@isValidUrl_needs_http_scheme sample_platform
              "HTTPS://casecomp.example/cup" Hvalid)
    as (_ & (rest & [Hrest|Hrest])).
  - vm_compute in Hrest. discriminate Hrest.
  - reflexivity.
Defined.

(** ** Default-filling, field by field *)

Lemma get_filterUndefined (o : obj) (k : string) :
  get (filterUndefined o) k = get o k.
Proof.
  unfold get.
  destruct (filterUndefined o !! k) as [v|] eqn:Hf.
  - apply filterUndefined_lookup_Some in Hf as [-> _]. reflexivity.
  - destruct (o !! k) as [v|] eqn:Ho; [|reflexivity].
    destruct (is_undefined v) eqn:Hv.
    + destruct v; try discriminate. reflexivity.
    + assert (filterUndefined o !! k = Some v) as Hsome
        by (apply filterUndefined_lookup_Some; auto).
      congruence.
Qed.

(** X9. [filterUndefined] does not change what reading a property gives;
    it leaves no property that holds undefined, keeps every other
    property (null and the empty string included), and filtering twice is
    filtering once. *)
Theorem filterUndefined_keeps_defined (o : obj) :
  (∀ k : string, get (filterUndefined o) k = get o k)
  ∧ (∀ (k : string) (v : value),
        filterUndefined o !! k = Some v ↔
        o !! k = Some v ∧ is_undefined v = false)
  ∧ filterUndefined (filterUndefined o) = filterUndefined o.
Proof.
  split; [apply get_filterUndefined|].
  split; [apply filterUndefined_lookup_Some|].
  apply map_eq. intros k.
  destruct (filterUndefined o !! k) as [v|] eqn:Hf.
  - apply filterUndefined_lookup_Some. split; [exact Hf|].
    apply filterUndefined_lookup_Some in Hf. tauto.
  - destruct (filterUndefined (filterUndefined o) !! k) as [v|] eqn:Hff;
      [|reflexivity].
    apply filterUndefined_lookup_Some in Hff as [Hff _]. congruence.
Qed.

(** X10. In the result of [applyDefaults] a field reads as the record's
    value, unless the record leaves it unset or undefined: then it reads
    as the default.  So null and the empty string override a default, and
    undefined never does; and a field is absent from the result only when
    the defaults lack it and the record leaves it unset or undefined. *)
Theorem applyDefaults_precedence (data defaults : obj) (k : string) :
  get (applyDefaults data defaults) k
  = (if is_undefined (get data k) then get defaults k else get data k)
  ∧ (applyDefaults data defaults !! k = None
     ↔ is_undefined (get data k) = true ∧ defaults !! k = None).
Proof.
  unfold get. rewrite applyDefaults_lookup.
  destruct (data !! k) as [v|]; simpl.
  - destruct (is_undefined v) eqn:Hv.
    + split; [reflexivity|]. tauto.
    + split; [reflexivity|]. split; [discriminate|].
      intros [Hu _]. discriminate.
  - split; [reflexivity|]. tauto.
Qed.

(** ** The bulk page, row by row *)

Lemma toNumber_idempotent `{Platform} (v : value) :
  toNumber (toNumber v) = toNumber v.
Proof.
  destruct v as [| |b|x|s|items]; simpl; try reflexivity.
  destruct (PrimFloat.is_nan (StringToNumber s)); reflexivity.
Qed.

Lemma toNumber_shape `{Platform} (v : value) :
  toNumber v = VUndefined ∨ ∃ x : float, toNumber v = VNum x.
Proof.
  destruct v as [| |b|x|s|items]; simpl; eauto.
  destruct (PrimFloat.is_nan (StringToNumber s)); eauto.
Qed.

Lemma type_errors_entry (r : obj) (entries : validators) (f : string) :
  In (invalid_message f) (type_errors r entries) →
  ∃ validator : option (value → bool), In (f, validator) entries.
Proof.
  induction entries as [|[g validator] rest IH]; simpl; [tauto|].
  destruct (reaches_validator r (g, validator)) as [check|].
  - simpl. destruct (check (get r g)).
    + intros Hin. destruct (IH Hin) as [w Hw]. eauto.
    + intros [Heq|Hin].
      * apply invalid_message_inj in Heq as ->. eauto.
      * destruct (IH Hin) as [w Hw]. eauto.
  - intros Hin. destruct (IH Hin) as [w Hw]. eauto.
Qed.

Lemma message_nonempty (r : obj) (requiredFields : list string)
    (typeValidations : validators) (msg : string) :
  In msg (errors (validateRow r requiredFields typeValidations)) →
  is_empty msg = false.
Proof.
  rewrite validateRow_errors. intros Hin.
  apply in_app_or in Hin as [Hin|Hin].
  - unfold required_errors in Hin. apply in_map_iff in Hin as (f & <- & _).
    reflexivity.
  - induction typeValidations as [|entry rest IH]; simpl in Hin; [destruct Hin|].
    destruct (reaches_validator r entry) as [check|]; [|auto].
    destruct (check (get r entry.1)); [auto|].
    destruct Hin as [<-|Hin]; [reflexivity | auto].
Qed.

Lemma join_nonempty (sep : string) (items : list string) :
  items ≠ [] →
  (∀ x : string, In x items → is_empty x = false) →
  is_empty (join sep items) = false.
Proof.
  destruct items as [|x rest]; [congruence|]. intros _ Hall.
  assert (is_empty x = false) as Hx by (apply Hall; left; reflexivity).
  destruct x as [|c x]; [discriminate|].
  simpl. destruct rest; reflexivity.
Qed.

Lemma filter_split_length {A} (f : A → bool) (l : list A) :
  length (List.filter f l) + length (List.filter (λ x, negb (f x)) l)
  = length l.
Proof.
  induction l as [|x l IH]; simpl; [reflexivity|].
  destruct (f x); simpl; lia.
Qed.

Section BulkRows.
Context `{Platform}.

(** X11. [handleParse] sorts every pasted row into exactly one of the two
    sets, keeping the pasted order in each: the valid set is the converted
    rows that validate, the error set the others, each with its messages
    joined; so the two sets together have as many rows as were pasted, and
    an error entry never has an empty message. *)
Theorem handleParse_partitions (rows : list obj) :
  (handleParse rows).1
  = List.filter (λ p, isValid (validate p)) (map convert_types rows)
  ∧ (handleParse rows).2
    = map to_error_row
        (List.filter (λ p, negb (isValid (validate p)))
           (map convert_types rows))
  ∧ length (handleParse rows).1 + length (handleParse rows).2 = length rows
  ∧ (∀ e : error_row, In e (handleParse rows).2 →
        is_empty (error e) = false).
Proof.
  unfold handleParse. rewrite handleParse_loop_app. cbn [fst snd app].
  split; [reflexivity|]. split; [reflexivity|]. split.
  - rewrite length_map, <- (length_map convert_types rows).
    apply (filter_split_length (λ p, isValid (validate p))).
  - intros e He. apply in_map_iff in He as (p & <- & Hp).
    apply filter_In in Hp as [_ Hp]. simpl.
    apply join_nonempty.
    + intros Hnil. apply negb_true_iff in Hp.
      assert (isValid (validate p) = true) as Hv
        by (apply validateRow_isValid; exact Hnil).
      congruence.
    + intros msg. apply message_nonempty.
Qed.

Lemma convert_types_lookup (r : obj) (k : string) :
  convert_types r !! k
  = if is_numeric_field k then Some (toNumber (get r k)) else r !! k.
Proof.
  unfold convert_types, is_numeric_field, numeric_fields.
  rewrite !lookup_insert. simpl.
  repeat case_decide; subst; simpl; try reflexivity;
    repeat match goal with
           | Hne : ?a ≠ ?b |- context [String.eqb ?b ?a] =>
               rewrite (proj2 (String.eqb_neq b a)) by congruence
           end; reflexivity.
Qed.

Lemma is_numeric_field_In (f : string) :
  is_numeric_field f = true ↔ In f numeric_fields.
Proof.
  unfold is_numeric_field. rewrite existsb_exists. split.
  - intros (g & Hg & Heq). apply String.eqb_eq in Heq as ->. exact Hg.
  - intros Hf. exists f. split; [exact Hf | apply String.eqb_refl].
Qed.

(** X12. Whatever a row holds, the bulk page never flags one of its four
    numeric fields.  After the conversion each of them holds a number or
    undefined and every other field is as pasted; converting again changes
    nothing; the messages of the validation come from the title and the
    two URL fields only, so the row is valid exactly when its title is
    present and neither URL field fails its check. *)
Theorem bulk_numbers_are_never_flagged (r : obj) :
  (∀ f : string, In f numeric_fields →
      (get (convert_types r) f = VUndefined
       ∨ ∃ x : float, get (convert_types r) f = VNum x)
      ∧ ¬ In ("Invalid value for field: " ++ f)
             (errors (validate (convert_types r))))
  ∧ (∀ f : string, ¬ In f numeric_fields →
        get (convert_types r) f = get r f)
  ∧ convert_types (convert_types r) = convert_types r
  ∧ (isValid (validate (convert_types r)) = true
     ↔ is_missing (get r "title") = false ∧ type_errors r url_entries = []).
Proof.
  split; [|split; [|split]].
  - intros f Hf. apply is_numeric_field_In in Hf as Hnum.
    rewrite get_convert_types, Hnum. split; [apply toNumber_shape|].
    rewrite validate_errors. intros Hin.
    apply in_app_or in Hin as [Hin|Hin].
    + unfold required_errors in Hin. apply in_map_iff in Hin as (g & Hg & _).
      exact (missing_not_invalid g f Hg).
    + apply type_errors_entry in Hin as [validator Hin].
      destruct Hin as [Heq|[Heq|[]]]; injection Heq as <- _;
        destruct Hf as [Hf|[Hf|[Hf|[Hf|[]]]]]; discriminate Hf.
  - intros f Hf. rewrite get_convert_types.
    destruct (is_numeric_field f) eqn:Hnum; [|reflexivity].
    apply is_numeric_field_In in Hnum. contradiction.
  - apply map_eq. intros k. rewrite !convert_types_lookup.
    destruct (is_numeric_field k) eqn:Hnum; [|reflexivity].
    rewrite get_convert_types, Hnum, toNumber_idempotent. reflexivity.
  - unfold validate at 1. rewrite validateRow_isValid.
    fold (validate (convert_types r)). rewrite validate_errors.
    rewrite <- required_title_errors. split.
    + intros Heq. apply app_eq_nil in Heq. exact Heq.
    + intros [-> ->]. reflexivity.
Qed.

Lemma get_parse_line (sep : ascii) (headers : list string) (line : string)
    (i : nat) (h : string) :
  List.NoDup headers →
  headers !! i = Some h →
  h ≠ "__proto__" →
  get (parse_line sep headers line) h
  = match split sep line !! i with
    | Some raw => cell raw
    | None => VUndefined
    end.
Proof.
  intros Hnodup Hi Hplain. unfold get, parse_line.
  rewrite (forEach_header_lookup _ _ 0 ∅ i h Hnodup Hi Hplain). simpl.
  destruct (split sep line !! i); [reflexivity|].
  rewrite lookup_empty. reflexivity.
Qed.

Lemma HEADERS_NoDup : List.NoDup HEADERS.
Proof.
  unfold HEADERS.
  repeat (constructor; [simpl; intuition discriminate|]). constructor.
Qed.

Lemma url_entry_ok (r : obj) (f : string) (piece : option string) :
  get r f = match piece with Some raw => cell raw | None => VUndefined end →
  (type_errors r [(f, Some url_check)] = [] ↔ url_cell_ok piece).
Proof.
  intros Hget. simpl. unfold reaches_validator. simpl. rewrite Hget.
  destruct piece as [raw|]; simpl; [|tauto].
  unfold cell. destruct (is_empty (trim raw)) eqn:Hblank; simpl; [tauto|].
  unfold url_check. simpl. rewrite Hblank. simpl.
  destruct (isValidUrl (VStr (trim raw))); split; auto; try discriminate.
  intros [Hx|Hx]; discriminate.
Qed.

(** The row built from a line that is already trimmed: it is valid exactly
    when the first cell of that line is not blank and its sixteenth and
    seventeenth cells are each blank, missing, or a valid URL once
    trimmed. *)
Lemma parse_line_is_valid_iff (sep : ascii) (line : string) :
  isValid (validate (convert_types (parse_line sep HEADERS line))) = true
  ↔ (∃ raw : string,
        split sep line !! 0%nat = Some raw ∧ is_empty (trim raw) = false)
    ∧ url_cell_ok (split sep line !! 15%nat)
    ∧ url_cell_ok (split sep line !! 16%nat).
Proof.
  set (r := parse_line sep HEADERS line).
  assert (isValid (validate (convert_types r)) = true
          ↔ is_missing (get r "title") = false
            ∧ type_errors r url_entries = []) as ->.
  { unfold validate at 1. rewrite validateRow_isValid.
    fold (validate (convert_types r)). rewrite validate_errors.
    rewrite <- required_title_errors. split.
    - intros Heq. apply app_eq_nil in Heq. exact Heq.
    - intros [-> ->]. reflexivity. }
  pose proof (get_parse_line sep HEADERS line 0 "title" HEADERS_NoDup eq_refl
                ltac:(discriminate)) as Htitle.
  pose proof (get_parse_line sep HEADERS line 15 "websiteUrl" HEADERS_NoDup
                eq_refl ltac:(discriminate)) as Hweb.
  pose proof (get_parse_line sep HEADERS line 16 "competitionImageUrl"
                HEADERS_NoDup eq_refl ltac:(discriminate)) as Himage.
  fold r in Htitle, Hweb, Himage.
  change url_entries
    with ([("websiteUrl", Some url_check)]
          ++ [("competitionImageUrl", Some url_check)])%list.
  rewrite type_errors_app.
  rewrite <- (url_entry_ok r "websiteUrl" _ Hweb).
  rewrite <- (url_entry_ok r "competitionImageUrl" _ Himage).
  rewrite Htitle. split.
  - intros [Hpresent Hurls]. apply app_eq_nil in Hurls as [Hw Hi].
    split; [|split; assumption].
    destruct (split sep line !! 0%nat) as [raw|]; [|discriminate].
    exists raw. split; [reflexivity|].
    unfold cell in Hpresent. destruct (is_empty (trim raw)); [discriminate|].
    reflexivity.
  - intros ((raw & -> & Hraw) & Hw & Hi). split.
    + unfold cell. rewrite Hraw. simpl. exact Hraw.
    + rewrite Hw, Hi. reflexivity.
Qed.

(** Split on a separator that is white space, a line that is not empty
    and does not start with white space has a first cell that is not
    blank. *)
Lemma split_first_cell (sep : ascii) (s : string) :
  is_white_space sep = true →
  is_empty s = false →
  starts_clean s = true →
  ∃ raw : string,
    split sep s !! 0%nat = Some raw ∧ is_empty (trim raw) = false.
Proof.
  intros Hsep Hne Hclean. destruct s as [|c rest]; [discriminate|].
  simpl in Hclean. apply negb_true_iff in Hclean. simpl.
  destruct (Ascii.eqb c sep) eqn:Hc.
  - apply Ascii.eqb_eq in Hc. subst c. congruence.
  - destruct (split sep rest) as [|piece pieces]; eexists;
      (split; [reflexivity|]); rewrite trim_empty; simpl; rewrite Hclean;
      reflexivity.
Qed.

(** X13. What makes a pasted line valid on the bulk page.  The parser
    trims the line before it splits it; the row of the i-th line that is
    not blank is valid exactly when the first cell of the trimmed line (the
    title) is not blank and its sixteenth and seventeenth cells (the
    website and the image URL) are each blank, missing, or a valid URL once
    trimmed.  No other cell matters.  On a paste that is split on tab the
    first cell of a trimmed line is never blank: a line written with a
    blank first cell loses its leading tab to the trimming, its cells move
    one place to the left, and its row has a title. *)
Theorem pasted_line_is_valid_iff (text : string) (i : nat) (line : string) :
  nonempty_lines text !! i = Some line →
  let cells := split (separator_of text) (trim line) in
  ∃ r : obj,
    parseDelimitedText text HEADERS !! i = Some r
    ∧ (isValid (validate (convert_types r)) = true
       ↔ (∃ raw : string,
             cells !! 0%nat = Some raw ∧ is_empty (trim raw) = false)
         ∧ url_cell_ok (cells !! 15%nat)
         ∧ url_cell_ok (cells !! 16%nat))
    ∧ (separator_of text = TAB →
       ∃ raw : string,
         cells !! 0%nat = Some raw ∧ is_empty (trim raw) = false).
Proof.
  intros Hline. cbv zeta.
  exists (parse_line (separator_of text) HEADERS (trim line)).
  split; [|split].
  - rewrite parseDelimitedText_map, list_lookup_fmap, Hline. reflexivity.
  - apply parse_line_is_valid_iff.
  - intros ->. apply split_first_cell; [reflexivity| |].
    + apply list_elem_of_lookup_2, list_elem_of_In in Hline.
      unfold nonempty_lines in Hline. apply filter_In in Hline as [_ Hline].
      apply negb_true_iff in Hline. exact Hline.
    + apply trimEnd_starts_clean, trimStart_starts_clean.
Qed.
End BulkRows.

Lemma pasted_line_is_valid_iff_witness :
  nonempty_lines blank_first_cell !! 1%nat
  = Some (String TAB ("C" ++ String TAB "D"))
  ∧ ∃ r : obj,
      parseDelimitedText blank_first_cell HEADERS !! 1%nat = Some r
      ∧ get r "title" = VStr "C"
      ∧ isValid (@validate sample_platform (@convert_types sample_platform r))
        = true.
Proof.
  assert (nonempty_lines blank_first_cell !! 1%nat
          = Some (String TAB ("C" ++ String TAB "D"))) as Hline
    by reflexivity.
  split; [exact Hline|].
  destruct (@pasted_line_is_valid_iff sample_platform blank_first_cell 1 _
              Hline) as (r & Hr & Hvalid & Htab).
  exists r. split; [exact Hr|].
  assert (Some r = Some (parse_line TAB HEADERS ("C" ++ String TAB "D")))
    as Heq by (rewrite <- Hr; vm_compute; reflexivity).
  injection Heq as Heq. split.
  - rewrite Heq. vm_compute. reflexivity.
  - apply Hvalid. split; [apply Htab; reflexivity|].
    split; vm_compute; exact I.
Defined.

(** ** What a submission sends *)

Lemma submit_defaults_defined (id now k : string) (v : value) :
  submit_defaults id now !! k = Some v → is_undefined v = false.
Proof.
  unfold submit_defaults, DEFAULT_VALUES. rewrite !lookup_insert.
  repeat case_decide; try (intros Heq; injection Heq as <-; reflexivity).
  rewrite lookup_empty. discriminate.
Qed.

Lemma submit_defaults_present (id now k : string) :
  In k defaulted_fields → is_Some (submit_defaults id now !! k).
Proof.
  unfold defaulted_fields. simpl.
  intros [<-|[<-|[<-|[<-|[<-|[<-|[<-|[]]]]]]]]; vm_compute; eauto.
Qed.

Lemma applyDefaults_defined (data defaults : obj) :
  (∀ (k : string) (v : value), defaults !! k = Some v →
      is_undefined v = false) →
  ∀ (k : string) (v : value),
    applyDefaults data defaults !! k = Some v → is_undefined v = false.
Proof.
  intros Hdefaults k v. rewrite applyDefaults_lookup.
  destruct (data !! k) as [w|]; [|apply Hdefaults].
  destruct (is_undefined w) eqn:Hw; [apply Hdefaults|].
  intros Heq. injection Heq as <-. exact Hw.
Qed.

Lemma maybe_set_lookup (ran : bool) (field : string) (id : value)
    (payload : obj) (k : string) :
  maybe_set ran field id payload !! k
  = if ran && String.eqb field k then Some id else payload !! k.
Proof.
  unfold maybe_set. destruct ran; simpl; [|reflexivity].
  rewrite lookup_insert. case_decide as Hk.
  - subst. rewrite String.eqb_refl. reflexivity.
  - apply String.eqb_neq in Hk. rewrite Hk. reflexivity.
Qed.

Lemma clean_payload_lookup (payload : obj) (k : string) :
  clean_payload payload !! k
  = if String.eqb k "organizerName" || String.eqb k "universityName"
    then None
    else if String.eqb k "tags"
         then match get payload "tags" with
              | VStr tags => Some (VArr (map trim (split COMMA tags)))
              | _ => payload !! "tags"
              end
         else payload !! k.
Proof.
  unfold clean_payload. rewrite !lookup_delete.
  destruct (String.eqb k "organizerName") eqn:Ho.
  - apply String.eqb_eq in Ho as ->. rewrite decide_True by reflexivity.
    reflexivity.
  - apply String.eqb_neq in Ho. rewrite decide_False by congruence.
    destruct (String.eqb k "universityName") eqn:Hu.
    + apply String.eqb_eq in Hu as ->. rewrite decide_True by reflexivity.
      reflexivity.
    + apply String.eqb_neq in Hu. rewrite decide_False by congruence.
      simpl. unfold clean_tags.
      destruct (String.eqb k "tags") eqn:Ht.
      * apply String.eqb_eq in Ht as ->.
        destruct (get payload "tags");
          try reflexivity. apply lookup_insert_eq.
      * apply String.eqb_neq in Ht.
        destruct (get payload "tags"); try reflexivity.
        apply lookup_insert_ne. congruence.
Qed.

(** The payload [submitRow] builds, whatever the two foreign-key steps
    did, is a sound payload for the row. *)
Lemma built_payload_ok (row : obj) (id now : string) (u o : value)
    (ran_u ran_o : bool) :
  is_undefined u = false → is_undefined o = false →
  payload_ok row
    (clean_payload
       (maybe_set ran_o "organizerId" o
          (maybe_set ran_u "universityId" u
             (applyDefaults row (submit_defaults id now))))).
Proof.
  intros Hu Ho.
  set (filled := applyDefaults row (submit_defaults id now)).
  set (built := maybe_set ran_o "organizerId" o
                  (maybe_set ran_u "universityId" u filled)).
  assert (∀ (k : string) (v : value), built !! k = Some v →
            is_undefined v = false) as Hbuilt.
  { intros k v. unfold built. rewrite !maybe_set_lookup.
    destruct (ran_o && String.eqb "organizerId" k);
      [intros Heq; injection Heq as <-; exact Ho|].
    destruct (ran_u && String.eqb "universityId" k);
      [intros Heq; injection Heq as <-; exact Hu|].
    apply applyDefaults_defined. apply submit_defaults_defined. }
  assert (∀ k : string, ¬ In k rewritten_fields →
            clean_payload built !! k = filled !! k) as Hkept.
  { intros k Hk. rewrite clean_payload_lookup. unfold built.
    assert (String.eqb k "organizerName" = false) as ->
      by (apply String.eqb_neq; intros ->; apply Hk; simpl; tauto).
    assert (String.eqb k "universityName" = false) as ->
      by (apply String.eqb_neq; intros ->; apply Hk; simpl; tauto).
    assert (String.eqb k "tags" = false) as ->
      by (apply String.eqb_neq; intros ->; apply Hk; simpl; tauto).
    simpl. rewrite !maybe_set_lookup.
    assert (String.eqb "organizerId" k = false) as ->
      by (apply String.eqb_neq; intros <-; apply Hk; simpl; tauto).
    assert (String.eqb "universityId" k = false) as ->
      by (apply String.eqb_neq; intros <-; apply Hk; simpl; tauto).
    rewrite !andb_false_r. reflexivity. }
  unfold payload_ok. repeat split.
  - intros k v. rewrite clean_payload_lookup.
    destruct (String.eqb k "organizerName" || String.eqb k "universityName");
      [discriminate|].
    destruct (String.eqb k "tags"); [|apply Hbuilt].
    destruct (get built "tags") eqn:Htags; try apply Hbuilt.
    intros Heq. injection Heq as <-. reflexivity.
  - rewrite clean_payload_lookup. reflexivity.
  - rewrite clean_payload_lookup. reflexivity.
  - intros s. unfold get at 1. rewrite clean_payload_lookup. simpl.
    unfold get. destruct (built !! "tags") as [[| |b|x|t|items]|]; discriminate.
  - intros k v Hk Hrow Hv. rewrite (Hkept k Hk). unfold filled.
    rewrite applyDefaults_lookup, Hrow, Hv. reflexivity.
  - intros k Hk.
    assert (¬ In k rewritten_fields) as Hnot.
    { unfold rewritten_fields, defaulted_fields in *. simpl in *.
      intuition (subst; discriminate). }
    rewrite (Hkept k Hnot). unfold filled. rewrite applyDefaults_lookup.
    destruct (row !! k) as [w|]; [|apply submit_defaults_present; exact Hk].
    destruct (is_undefined w); [apply submit_defaults_present; exact Hk|].
    eauto.
Qed.

Ltac step_returned Hc := rewrite (bind_returned _ _ _ _ _ Hc); cbv beta zeta.
Ltac step_thrown Hc := rewrite (bind_thrown _ _ _ _ _ Hc); cbv beta zeta.

Lemma or_null_defined (v : value) : is_undefined (or_null v) = false.
Proof. destruct v; reflexivity. Qed.

Section Requests.
Context `{Platform} {W : Type} (B : Backend W).

(** A foreign-key step, with what it sends and what it stores. *)
Lemma resolve_into_sound (field table column filter : string) (name : value)
    (payload : obj) (p : page (W * list request)) :
  ∃ w' : W,
    let seg := if truthy name
               then [ReqSelect table column filter (ToString name)]
               else [] in
    (∃ id : value,
        is_undefined id = false
        ∧ @resolve_into _ field
            (@resolve_by_name _ _ (traced B) table column filter) name payload p
          = (Returned (maybe_set (truthy name) field id payload),
             after p w' seg))
    ∨ (∃ e : exn,
          @resolve_into _ field
            (@resolve_by_name _ _ (traced B) table column filter) name
            payload p
          = (Thrown e, after p w' seg)).
Proof.
  unfold resolve_into. destruct (truthy name) eqn:Hname; cbv zeta.
  - destruct p as [[w sent] valid lg sub].
    unfold bind, remote, zoom. cbn [world]. rewrite resolve_by_name_traced.
    rewrite Hname.
    unfold after, sent_by, set_world, ret, maybe_set.
    cbn [world snd validRows logs isSubmitting].
    destruct (select_ilike_single table column filter (ToString name) w)
      as [[[o|]|e] w'] eqn:Hq; exists w'.
    + left. exists (or_null (get o column)).
      split; [apply or_null_defined | reflexivity].
    + left. exists VNull. split; reflexivity.
    + right. exists e. reflexivity.
  - exists (world p).1. left. exists VNull. split; [reflexivity|].
    unfold ret, maybe_set. rewrite after_nil. reflexivity.
Qed.

Lemma lookup_segment_sound (row : obj) (table column filter field : string) :
  (table = "university" ∧ column = "id" ∧ filter = "name"
   ∧ field = "universityName")
  ∨ (table = "organizer" ∧ column = "orgId" ∧ filter = "orgName"
     ∧ field = "organizerName") →
  Forall (sound_request row)
    (if truthy (get row field)
     then [ReqSelect table column filter (ToString (get row field))]
     else []).
Proof.
  intros Hwhich. destruct (truthy (get row field)) eqn:Hname;
    [|constructor].
  constructor; [|constructor]. simpl.
  destruct Hwhich as [(-> & -> & -> & ->)|(-> & -> & -> & ->)]; [left|right];
    auto.
Qed.

(** [submitRow] never throws, and every request it sends is a sound
    request for its row. *)
Lemma submitRow_sound (row : obj) (i : nat) (p : page (W * list request)) :
  ∃ (b : bool) (entry : LogEntry) (seg : list request) (w' : W),
    @submitRow _ _ (traced B) row i p = (Returned b, logged p w' seg entry)
    ∧ Forall (sound_request row) seg.
Proof.
  destruct (getNow_run B p) as (now & w1 & Hnow).
  destruct (generateId_run B (after p w1 [])) as (id & w2 & Hid).
  rewrite after_after in Hid. cbn [app] in Hid.
  set (seg1 := if truthy (get row "universityName")
               then [ReqSelect "university" "id" "name"
                       (ToString (get row "universityName"))]
               else []).
  set (seg2 := if truthy (get row "organizerName")
               then [ReqSelect "organizer" "orgId" "orgName"
                       (ToString (get row "organizerName"))]
               else []).
  assert (Forall (sound_request row) seg1) as Hseg1
    by (apply (lookup_segment_sound row _ _ _ "universityName"); tauto).
  assert (Forall (sound_request row) seg2) as Hseg2
    by (apply (lookup_segment_sound row _ _ _ "organizerName"); tauto).
  destruct (resolve_into_sound "universityId" "university" "id" "name"
              (get row "universityName")
              (applyDefaults row (submit_defaults id now)) (after p w2 []))
    as (w3 & Hres1).
  cbv zeta in Hres1. fold seg1 in Hres1.
  rewrite after_after in Hres1. cbn [app] in Hres1.
  unfold submitRow, resolveUniversityId, resolveOrganizerId, try_catch.
  destruct Hres1 as [(u & Hu & Hres1) | (e & Hres1)].
  2: { destruct (catch_run B row i e p w3 seg1) as (ts & w' & Hcatch).
       exists false, (error_entry i ts e row), seg1, w'. split; [|exact Hseg1].
       step_returned Hnow. step_returned Hid. step_thrown Hres1.
       exact Hcatch. }
  set (payload1 := maybe_set (truthy (get row "universityName"))
                     "universityId" u
                     (applyDefaults row (submit_defaults id now))) in *.
  destruct (resolve_into_sound "organizerId" "organizer" "orgId" "orgName"
              (get row "organizerName") payload1 (after p w3 seg1))
    as (w4 & Hres2).
  cbv zeta in Hres2. fold seg2 in Hres2. rewrite after_after in Hres2.
  assert (Forall (sound_request row) (seg1 ++ seg2)) as Hsegs
    by (apply Forall_app; auto).
  destruct Hres2 as [(o & Ho & Hres2) | (e & Hres2)].
  2: { destruct (catch_run B row i e p w4 (seg1 ++ seg2))
         as (ts & w' & Hcatch).
       exists false, (error_entry i ts e row), (seg1 ++ seg2)%list, w'.
       split; [|exact Hsegs].
       step_returned Hnow. step_returned Hid. step_returned Hres1.
       step_thrown Hres2. exact Hcatch. }
  set (payload2 := maybe_set (truthy (get row "organizerName"))
                     "organizerId" o payload1) in *.
  destruct (insert_run B (clean_payload payload2) (after p w4 (seg1 ++ seg2)))
    as (answer & w5 & Hins & _).
  rewrite after_after in Hins.
  assert (Forall (sound_request row)
            ((seg1 ++ seg2) ++ [ReqInsert "competition"
                                  [clean_payload payload2]])) as Hall.
  { apply Forall_app. split; [exact Hsegs|]. constructor; [|constructor].
    simpl. split; [reflexivity|]. eexists. split; [reflexivity|].
    apply built_payload_ok; assumption. }
  destruct answer as [[message|]|e].
  - destruct (catch_run B row i (ErrorObject message) p w5
                ((seg1 ++ seg2) ++ [ReqInsert "competition"
                                      [clean_payload payload2]]))
      as (ts & w' & Hcatch).
    eexists false, _, _, w'. split; [|exact Hall].
    step_returned Hnow. step_returned Hid. step_returned Hres1.
    step_returned Hres2. step_returned Hins. unfold throw. exact Hcatch.
  - destruct (getNow_run B (after p w5
                ((seg1 ++ seg2) ++ [ReqInsert "competition"
                                      [clean_payload payload2]])))
      as (ts & w' & Hts).
    rewrite after_after, app_nil_r in Hts.
    eexists true, _, _, w'. split; [|exact Hall].
    step_returned Hnow. step_returned Hid. step_returned Hres1.
    step_returned Hres2. step_returned Hins. step_returned Hts.
    unfold bind. rewrite setLogs_after. reflexivity.
  - destruct (catch_run B row i e p w5
                ((seg1 ++ seg2) ++ [ReqInsert "competition"
                                      [clean_payload payload2]]))
      as (ts & w' & Hcatch).
    eexists false, _, _, w'. split; [|exact Hall].
    step_returned Hnow. step_returned Hid. step_returned Hres1.
    step_returned Hres2. step_thrown Hins. exact Hcatch.
Qed.

Lemma submit_from_sound (rows : list obj) (i : nat)
    (p : page (W * list request)) :
  ∃ (entries : list LogEntry) (seg : list request) (w' : W),
    @submit_from _ _ (traced B) rows i p
    = (Returned tt,
       {| world := (w', (sent_by p ++ seg)%list); validRows := validRows p;
          logs := (logs p ++ entries)%list;
          isSubmitting := isSubmitting p |})
    ∧ length entries = length rows
    ∧ Forall (λ q, ∃ row : obj, In row rows ∧ sound_request row q) seg.
Proof.
  revert i p. induction rows as [|row rest IH]; intros i p.
  - exists [], [], (world p).1. split; [|split; [reflexivity|constructor]].
    destruct p as [[w sent] valid lg sub]. unfold sent_by. simpl.
    unfold ret. rewrite !app_nil_r. reflexivity.
  - destruct (submitRow_sound row i p) as (b & entry & seg & w1 & Hrow & Hseg).
    destruct (IH (S i) (logged p w1 seg entry))
      as (entries & seg' & w2 & Hrest & Hlen & Hseg').
    exists (entry :: entries), (seg ++ seg')%list, w2.
    split; [|split].
    + cbn [submit_from]. step_returned Hrow. rewrite Hrest.
      unfold logged, sent_by. simpl. rewrite <- !app_assoc. reflexivity.
    + simpl. rewrite Hlen. reflexivity.
    + apply Forall_app. split.
      * eapply List.Forall_impl; [|exact Hseg]. intros q Hq.
        exists row. split; [left; reflexivity | exact Hq].
      * eapply List.Forall_impl; [|exact Hseg']. intros q (r & Hr & Hq).
        exists r. split; [right; exact Hr | exact Hq].
Qed.

(** X14. Everything a submission sends is accounted for.  Each request of
    [handleSubmitValid] is, for one of the valid rows, either a lookup of a
    name that row holds (on the university or the organizer table) or the
    insert of one payload into the competition table; and in such a
    payload no property holds undefined, [universityName] and
    [organizerName] are gone, [tags] is no string, every defined field of
    the row that is not rewritten is carried over unchanged, and [id],
    the two timestamps and the four flags are present. *)
Theorem handleSubmitValid_sends_sound_requests
    (p : page (W * list request)) :
  ∃ (w' : W) (entries : list LogEntry) (seg : list request),
    @handleSubmitValid _ _ (traced B) p
    = (Returned tt,
       {| world := (w', (sent_by p ++ seg)%list); validRows := [];
          logs := (logs p ++ entries)%list; isSubmitting := false |})
    ∧ Forall (λ q, ∃ row : obj, In row (validRows p) ∧ sound_request row q)
        seg.
Proof.
  destruct p as [[w sent] valid lg sub].
  destruct (submit_from_sound valid 0
              {| world := (w, sent); validRows := valid; logs := lg;
                 isSubmitting := true |})
    as (entries & seg & w' & Hloop & _ & Hseg).
  exists w', entries, seg. split; [|exact Hseg].
  unfold handleSubmitValid. cbn [validRows].
  unfold bind at 1. unfold setIsSubmitting at 1. cbn [world validRows logs].
  unfold bind at 1. rewrite Hloop. reflexivity.
Qed.
End Requests.

(** ** The counters of the log *)

Lemma counters_app (st : log_status) (a b : list LogEntry) :
  length (List.filter (PasteTable.status_is st) (a ++ b))
  = length (List.filter (PasteTable.status_is st) a)
    + length (List.filter (PasteTable.status_is st) b).
Proof. rewrite List.filter_app, length_app. reflexivity. Qed.

Lemma counters_partition (logs : list LogEntry) :
  length (List.filter (PasteTable.status_is Success) logs)
  + length (List.filter (PasteTable.status_is Error) logs)
  + length (List.filter (PasteTable.status_is Skipped) logs)
  = length logs.
Proof.
  induction logs as [|log logs IH]; simpl; [reflexivity|].
  destruct (PasteTable.status_is Success log) eqn:Hs,
           (PasteTable.status_is Error log) eqn:He,
           (PasteTable.status_is Skipped log) eqn:Hk;
    unfold PasteTable.status_is in Hs, He, Hk;
    destruct (Types.status log); try discriminate; simpl; lia.
Qed.

Section Counters.
Context `{Platform} {W : Type} (B : Backend W).

Lemma attempts_settled (rows : list obj) (i : nat) (entries : list LogEntry)
    (segs : list (list request)) :
  attempts B rows i entries segs →
  length (List.filter (PasteTable.status_is Success) entries)
  + length (List.filter (PasteTable.status_is Error) entries)
  = length rows
  ∧ length (List.filter (PasteTable.status_is Skipped) entries) = 0.
Proof.
  induction 1 as [|row rows i entry entries seg segs Hatt _ [IHs IHk]];
    [split; reflexivity|].
  destruct (attempt_summary B _ _ _ _ Hatt) as [_ [[Hst _]|(Hst & _)]];
    simpl;
    destruct (PasteTable.status_is Success entry) eqn:Hs,
             (PasteTable.status_is Error entry) eqn:He,
             (PasteTable.status_is Skipped entry) eqn:Hk;
    unfold PasteTable.status_is in Hs, He, Hk; rewrite Hst in Hs, He, Hk;
    try discriminate; simpl; split; lia.
Qed.

(** X15. The three counters of the log view always add up to the number
    of entries.  Submitting the valid rows never throws and raises the
    success and the error counter together by the number of rows
    submitted, while the skipped counter stays as it was. *)
Theorem LogList_counters_after_submit (p : page (W * list request)) :
  ∃ p' : page (W * list request),
    @handleSubmitValid _ _ (traced B) p = (Returned tt, p')
    ∧ settled (logs p') = settled (logs p) + length (validRows p)
    ∧ PasteTable.skippedCount (PasteTable.LogList_counters (logs p'))
      = PasteTable.skippedCount (PasteTable.LogList_counters (logs p))
    ∧ settled (logs p')
      + PasteTable.skippedCount (PasteTable.LogList_counters (logs p'))
      = length (logs p').
Proof.
  destruct p as [[w sent] valid lg sub].
  destruct (submit_from_run B valid 0
              {| world := (w, sent); validRows := valid; logs := lg;
                 isSubmitting := true |})
    as (entries & segs & w' & Hloop & Hatts).
  destruct (attempts_settled _ _ _ _ Hatts) as [Hsettled Hskipped].
  eexists. split.
  - unfold handleSubmitValid. cbn [validRows].
    unfold bind at 1. unfold setIsSubmitting at 1. cbn [world validRows logs].
    unfold bind at 1. rewrite Hloop. reflexivity.
  - unfold settled, PasteTable.LogList_counters. cbn.
    rewrite !counters_app.
    pose proof (counters_partition lg) as Hlg.
    pose proof (counters_partition entries) as Hentries.
    rewrite length_app. repeat split; lia.
Qed.
End Counters.

(** ** Resolvers on any backend *)

Section AnyBackend.
Context `{Platform} {W : Type} (B : Backend W).

Lemma resolve_by_name_never_undefined (table column filter : string)
    (name : value) (w : W) (sent : list request) :
  let run := @resolve_by_name _ _ (traced B) table column filter name
               (w, sent) in
  (truthy name = false → run = (Returned VNull, (w, sent)))
  ∧ (truthy name = true →
     ∃ w' : W,
       run.2 = (w', (sent ++ [ReqSelect table column filter
                                (ToString name)])%list))
  ∧ (∀ v : value, run.1 = Returned v → is_undefined v = false)
  ∧ (∀ e : exn, run.1 = Thrown e →
       ∃ w' : W,
         select_ilike_single table column filter (ToString name) w
         = (Thrown e, w')).
Proof.
  cbv zeta. rewrite resolve_by_name_traced.
  destruct (truthy name).
  - destruct (select_ilike_single table column filter (ToString name) w)
      as [[[o|]|e] w'] eqn:Hq; simpl.
    + split; [discriminate|]. split; [eauto|]. split.
      * intros v Hv. injection Hv as <-. apply or_null_defined.
      * discriminate.
    + split; [discriminate|]. split; [eauto|]. split.
      * intros v Hv. injection Hv as <-. reflexivity.
      * discriminate.
    + split; [discriminate|]. split; [eauto|]. split; [discriminate|].
      intros e' He. injection He as <-. eauto.
  - simpl. split; [reflexivity|]. split; [discriminate|]. split.
    + intros v Hv. injection Hv as <-. reflexivity.
    + discriminate.
Qed.

(** X16. On any backend, a name resolver given a falsy name answers null
    and sends nothing; given any other name it sends exactly one lookup,
    with the name as written.  Its answer is never undefined (it is null or
    the key found), and whatever it throws was thrown by the lookup. *)
Theorem name_resolvers_on_any_backend (name : value) (w : W)
    (sent : list request) :
  let resolved (table column filter : string)
        (run : outcome value * (W * list request)) : Prop :=
    (truthy name = false → run = (Returned VNull, (w, sent)))
    ∧ (truthy name = true →
       ∃ w' : W,
         run.2 = (w', (sent ++ [ReqSelect table column filter
                                  (ToString name)])%list))
    ∧ (∀ v : value, run.1 = Returned v → is_undefined v = false)
    ∧ (∀ e : exn, run.1 = Thrown e →
         ∃ w' : W,
           select_ilike_single table column filter (ToString name) w
           = (Thrown e, w')) in
  resolved "university" "id" "name"
    (@resolveUniversityId _ _ (traced B) name (w, sent))
  ∧ resolved "organizer" "orgId" "orgName"
      (@resolveOrganizerId _ _ (traced B) name (w, sent))
  ∧ resolved "competition" "id" "title"
      (@resolveCompetitionId _ _ (traced B) name (w, sent)).
Proof.
  cbv zeta. unfold resolveUniversityId, resolveOrganizerId,
    resolveCompetitionId.
  split; [|split]; apply resolve_by_name_never_undefined.
Qed.
End AnyBackend.

Section AnyIdBackend.
Context `{Platform} {W : Type} (B : IdBackend W).

Lemma resolve_by_id_traced (table : string) (id : value) (w : W)
    (sent : list Observe.id_request) :
  @resolve_by_id _ _ (Observe.traced_ids B) table id (w, sent)
  = if truthy id then
      let (answer, w') := select_eq_single table "id" "id" (ToString id) w in
      (match answer with
       | Returned (Some o) => Returned (or_null (get o "id"))
       | Returned None => Returned VNull
       | Thrown e => Thrown e
       end,
       (w', (sent ++ [Observe.ReqSelectEq table "id" "id"
                        (ToString id)])%list))
    else (Returned VNull, (w, sent)).
Proof.
  unfold resolve_by_id. destruct (truthy id); [|reflexivity].
  unfold bind, ret. simpl.
  destruct (select_eq_single table "id" "id" (ToString id) w)
    as [[[o|]|e] w']; reflexivity.
Qed.

Lemma resolve_by_id_never_undefined (table : string) (id : value) (w : W)
    (sent : list Observe.id_request) :
  let run := @resolve_by_id _ _ (Observe.traced_ids B) table id (w, sent) in
  (truthy id = false → run = (Returned VNull, (w, sent)))
  ∧ (truthy id = true →
     ∃ w' : W,
       run.2 = (w', (sent ++ [Observe.ReqSelectEq table "id" "id"
                                (ToString id)])%list))
  ∧ (∀ v : value, run.1 = Returned v → is_undefined v = false)
  ∧ (∀ e : exn, run.1 = Thrown e →
       ∃ w' : W,
         select_eq_single table "id" "id" (ToString id) w = (Thrown e, w')).
Proof.
  cbv zeta. rewrite resolve_by_id_traced.
  destruct (truthy id).
  - destruct (select_eq_single table "id" "id" (ToString id) w)
      as [[[o|]|e] w'] eqn:Hq; simpl.
    + split; [discriminate|]. split; [eauto|]. split.
      * intros v Hv. injection Hv as <-. apply or_null_defined.
      * discriminate.
    + split; [discriminate|]. split; [eauto|]. split.
      * intros v Hv. injection Hv as <-. reflexivity.
      * discriminate.
    + split; [discriminate|]. split; [eauto|]. split; [discriminate|].
      intros e' He. injection He as <-. eauto.
  - simpl. split; [reflexivity|]. split; [discriminate|]. split.
    + intros v Hv. injection Hv as <-. reflexivity.
    + discriminate.
Qed.

(** X17. On any backend, [resolveTimelineId] and [resolveHistoryId] given
    a falsy identifier answer null and send nothing; given any other they
    send exactly one equality lookup of the identifier on their table.
    Their answer is never undefined, and whatever they throw was thrown by
    the lookup. *)
Theorem id_resolvers_on_any_backend (id : value) (w : W)
    (sent : list Observe.id_request) :
  let resolved (table : string)
        (run : outcome value * (W * list Observe.id_request)) : Prop :=
    (truthy id = false → run = (Returned VNull, (w, sent)))
    ∧ (truthy id = true →
       ∃ w' : W,
         run.2 = (w', (sent ++ [Observe.ReqSelectEq table "id" "id"
                                  (ToString id)])%list))
    ∧ (∀ v : value, run.1 = Returned v → is_undefined v = false)
    ∧ (∀ e : exn, run.1 = Thrown e →
         ∃ w' : W,
           select_eq_single table "id" "id" (ToString id) w
           = (Thrown e, w')) in
  resolved "timeline"
    (@resolveTimelineId _ _ (Observe.traced_ids B) id (w, sent))
  ∧ resolved "history"
      (@resolveHistoryId _ _ (Observe.traced_ids B) id (w, sent)).
Proof.
  cbv zeta. unfold resolveTimelineId, resolveHistoryId.
  split; apply resolve_by_id_never_undefined.
Qed.
End AnyIdBackend.

(** ** The endpoint, whatever the request *)

Lemma usable_tidy (content : option string) (short : string) :
  usable content = Some short → tidy short.
Proof.
  intros Hshort. split; [exact (usable_nonempty _ _ Hshort)|].
  unfold usable in Hshort. destruct content as [c|]; [|discriminate].
  destruct (is_empty (trim c)); [discriminate|].
  injection Hshort as <-. apply trim_idempotent.
Qed.

Lemma json_truthy_Some (found : option json) :
  json_truthy found = true → ∃ text : json, found = Some text.
Proof. destruct found as [text|]; [eauto | discriminate]. Qed.

Section EndpointAnswers.
Context {W : Type} `{OpenAI W}.

(** X18. The handler answers every request: it never throws, and its
    status is 200, 400, 500 or 503.  The status is 503 exactly when no key
    is configured, and 200 exactly when the body carries a short
    description, which then is not empty and has no white space at either
    end. *)
Theorem POST_always_answers (e : env) (req : Request) (w : W) :
  ∃ (r : response) (w' : W),
    POST e req w = (Returned r, w')
    ∧ In (status r) [200; 400; 500; 503]
    ∧ (status r = 503 ↔ isOpenAIEnabled e = false)
    ∧ (status r = 200 ↔ ∃ short : string, body r = ShortDescriptionBody short)
    ∧ (∀ short : string, body r = ShortDescriptionBody short → tidy short).
Proof.
  assert (∀ (r : response) (w' : W) (message : string) (code : nat),
            r = {| status := code; body := ErrorBody message |} →
            In code [400; 500] →
            isOpenAIEnabled e = true →
            POST e req w = (Returned r, w') →
            ∃ (r : response) (w' : W),
              POST e req w = (Returned r, w')
              ∧ In (status r) [200; 400; 500; 503]
              ∧ (status r = 503 ↔ isOpenAIEnabled e = false)
              ∧ (status r = 200
                 ↔ ∃ short : string, body r = ShortDescriptionBody short)
              ∧ (∀ short : string, body r = ShortDescriptionBody short →
                    tidy short)) as Herror.
  { intros r w' message code -> Hcode He Hrun. eexists; exists w'.
    split; [exact Hrun|]. simpl. rewrite He.
    destruct Hcode as [<-|[<-|[]]]; repeat split; simpl; auto;
      try discriminate; try (intros [short Hs]; discriminate). }
  destruct (isOpenAIEnabled e) eqn:He.
  2: { exists not_configured, w. split; [apply POST_not_configured; exact He|].
       simpl. repeat split; auto; try discriminate.
       intros [short Hs]. discriminate. }
  destruct req as [[parsed|x]].
  2: { eapply (Herror internal_error w); [reflexivity|simpl; tauto|reflexivity|].
       apply POST_unparsable. exact He. }
  destruct (json_truthy (longDescription_of parsed)) eqn:Htruthy.
  2: { destruct parsed as [|b|x|s|items|members].
       - eapply (Herror internal_error w);
           [reflexivity|simpl; tauto|reflexivity|].
         unfold POST, try_catch. rewrite He. reflexivity.
       - eapply (Herror missing_input w);
           [reflexivity|simpl; tauto|reflexivity|].
         apply POST_missing_input; [exact He|discriminate|exact Htruthy].
       - eapply (Herror missing_input w);
           [reflexivity|simpl; tauto|reflexivity|].
         apply POST_missing_input; [exact He|discriminate|exact Htruthy].
       - eapply (Herror missing_input w);
           [reflexivity|simpl; tauto|reflexivity|].
         apply POST_missing_input; [exact He|discriminate|exact Htruthy].
       - eapply (Herror missing_input w);
           [reflexivity|simpl; tauto|reflexivity|].
         apply POST_missing_input; [exact He|discriminate|exact Htruthy].
       - eapply (Herror missing_input w);
           [reflexivity|simpl; tauto|reflexivity|].
         apply POST_missing_input; [exact He|discriminate|exact Htruthy]. }
  destruct (json_truthy_Some _ Htruthy) as [text Htext].
  rewrite Htext in Htruthy.
  assert (parsed ≠ JNull) as Hnull by (intros ->; discriminate).
  pose proof (POST_generates e parsed text w He Hnull Htext Htruthy) as Hrun.
  destruct (chat_completion_content text w) as [[content|x] w'].
  - destruct (usable content) as [short|] eqn:Hshort.
    + eexists; exists w'. split; [exact Hrun|]. simpl.
      split; [tauto|]. split; [split; discriminate|].
      split; [split; eauto|].
      intros short' Hs. injection Hs as <-. exact (usable_tidy _ _ Hshort).
    + eapply (Herror generation_failed w');
        [reflexivity|simpl; tauto|reflexivity|exact Hrun].
  - eapply (Herror generation_failed w');
      [reflexivity|simpl; tauto|reflexivity|exact Hrun].
Qed.
End EndpointAnswers.

Section EndpointCalls.
Context {W : Type} (O : OpenAI W).

(** [generateShortDescription] on a service that keeps its calls. *)
Lemma generateShortDescription_traced (e : env) (text : json) (w : W)
    (sent : list json) :
  @generateShortDescription _ (Observe.traced_openai O) e text (w, sent)
  = if isOpenAIAvailable e then
      let (answer, w') := chat_completion_content text w in
      (Returned match answer with
                | Returned content => usable content
                | Thrown _ => None
                end,
       (w', (sent ++ [text])%list))
    else (Returned None, (w, sent)).
Proof.
  unfold generateShortDescription.
  destruct (isOpenAIAvailable e); [|reflexivity]. simpl.
  unfold try_catch, bind, ret. simpl.
  destruct (chat_completion_content text w) as [[content|x] w']; reflexivity.
Qed.

(** X19. [generateShortDescription] never throws, even when the service
    does.  Without a key it answers null and does not call the service;
    with a key it calls the service exactly once, with the text it was
    given.  An answer other than null is never empty and has no white space
    at either end. *)
Theorem generateShortDescription_never_throws (e : env) (text : json)
    (w : W) (sent : list json) :
  ∃ (answer : option string) (w' : W) (calls : list json),
    @generateShortDescription _ (Observe.traced_openai O) e text (w, sent)
    = (Returned answer, (w', (sent ++ calls)%list))
    ∧ calls = (if isOpenAIAvailable e then [text] else [])
    ∧ (isOpenAIAvailable e = false → answer = None ∧ w' = w)
    ∧ (∀ short : string, answer = Some short → tidy short).
Proof.
  rewrite generateShortDescription_traced.
  destruct (isOpenAIAvailable e).
  - destruct (chat_completion_content text w) as [[content|x] w'].
    + exists (usable content), w', [text].
      split; [reflexivity|]. split; [reflexivity|]. split; [discriminate|].
      intros short Hshort. exact (usable_tidy _ _ Hshort).
    + exists None, w', [text].
      split; [reflexivity|]. split; [reflexivity|]. split; discriminate.
  - exists None, w, []. rewrite app_nil_r.
    split; [reflexivity|]. split; [reflexivity|]. split; [auto|discriminate].
Qed.

(** X20. The handler calls the completion service at most once, and only
    when a key is configured and the parsed body holds a truthy
    [longDescription]: that value is the text it sends.  An answer of 503
    or 400 was given without a call. *)
Theorem POST_calls_at_most_once (e : env) (req : Request) (w : W)
    (sent : list json) :
  ∃ (r : response) (w' : W) (calls : list json),
    @POST _ (Observe.traced_openai O) e req (w, sent)
    = (Returned r, (w', (sent ++ calls)%list))
    ∧ (calls = [] ∧ w' = w
       ∨ ∃ parsed text : json,
           json_body req = Returned parsed
           ∧ longDescription_of parsed = Some text
           ∧ json_truthy (Some text) = true
           ∧ isOpenAIEnabled e = true
           ∧ calls = [text])
    ∧ (status r = 503 ∨ status r = 400 → calls = []).
Proof.
  assert (∀ r : response,
            @POST _ (Observe.traced_openai O) e req (w, sent)
            = (Returned r, (w, sent)) →
            ∃ (r : response) (w' : W) (calls : list json),
              @POST _ (Observe.traced_openai O) e req (w, sent)
              = (Returned r, (w', (sent ++ calls)%list))
              ∧ (calls = [] ∧ w' = w
                 ∨ ∃ parsed text : json,
                     json_body req = Returned parsed
                     ∧ longDescription_of parsed = Some text
                     ∧ json_truthy (Some text) = true
                     ∧ isOpenAIEnabled e = true
                     ∧ calls = [text])
              ∧ (status r = 503 ∨ status r = 400 → calls = [])) as Hquiet.
  { intros r Hrun. exists r, w, []. rewrite app_nil_r. auto. }
  destruct (isOpenAIEnabled e) eqn:He.
  2: { apply (Hquiet not_configured). apply POST_not_configured. exact He. }
  destruct req as [[parsed|x]].
  2: { apply (Hquiet internal_error). apply POST_unparsable. exact He. }
  destruct (json_truthy (longDescription_of parsed)) eqn:Htruthy.
  2: { destruct parsed as [|b|x|s|items|members];
         [ apply (Hquiet internal_error); unfold POST, try_catch;
           rewrite He; reflexivity
         | apply (Hquiet missing_input); apply POST_missing_input;
           [exact He|discriminate|exact Htruthy] .. ]. }
  destruct (json_truthy_Some _ Htruthy) as [text Htext].
  rewrite Htext in Htruthy.
  assert (parsed ≠ JNull) as Hnull by (intros ->; discriminate).
  pose proof (@POST_generates _ (Observe.traced_openai O) e parsed text
                (w, sent) He Hnull Htext Htruthy) as Hrun.
  simpl in Hrun.
  destruct (chat_completion_content text w) as [[content|x] w'].
  - destruct (usable content) as [short|].
    + eexists; exists w', [text]. split; [exact Hrun|]. split.
      * right. exists parsed, text. auto.
      * simpl. intros [Hs|Hs]; discriminate.
    + eexists; exists w', [text]. split; [exact Hrun|]. split.
      * right. exists parsed, text. auto.
      * simpl. intros [Hs|Hs]; discriminate.
  - eexists; exists w', [text]. split; [exact Hrun|]. split.
    + right. exists parsed, text. auto.
    + simpl. intros [Hs|Hs]; discriminate.
Qed.
End EndpointCalls.

(** ** Dates *)

Section Dates.
Context `{UtilsDates.DateRuntime}.

(** X21. On a runtime whose [toISOString] only throws for an invalid
    date, [formatDate] never throws: the test on the time value comes
    first.  For a string it answers the empty string when the string is
    empty or no valid date, and the ISO text of its time value
    otherwise. *)
Theorem formatDate_never_throws (date : UtilsDates.date_input) (s : string) :
  (∀ t : float, PrimFloat.is_nan t = false →
      ∃ text : string, UtilsDates.toISOString t = Returned text) →
  (∃ text : string, UtilsDates.formatDate date = Returned text)
  ∧ (UtilsDates.isValidDate s = false →
     UtilsDates.formatDate (UtilsDates.DateString s) = Returned EmptyString)
  ∧ (is_empty s = true →
     UtilsDates.formatDate (UtilsDates.DateString s) = Returned EmptyString)
  ∧ (UtilsDates.isValidDate s = true → is_empty s = false →
     UtilsDates.formatDate (UtilsDates.DateString s)
     = UtilsDates.toISOString (UtilsDates.time_of_string s)).
Proof.
  intros Hruntime. unfold UtilsDates.isValidDate. split; [|split; [|split]].
  - destruct date as [| |text|t]; simpl; eauto.
    + destruct (is_empty text); [eauto|].
      destruct (PrimFloat.is_nan (UtilsDates.time_of_string text)) eqn:Hnan;
        [eauto | apply Hruntime; exact Hnan].
    + destruct (PrimFloat.is_nan t) eqn:Hnan;
        [eauto | apply Hruntime; exact Hnan].
  - intros Hinvalid. apply negb_false_iff in Hinvalid. simpl.
    rewrite Hinvalid. destruct (is_empty s); reflexivity.
  - intros Hempty. simpl. rewrite Hempty. reflexivity.
  - intros Hvalid Hempty. apply negb_true_iff in Hvalid. simpl.
    rewrite Hempty, Hvalid. reflexivity.
Qed.
End Dates.

Lemma formatDate_never_throws_witness :
  (∀ t : float, PrimFloat.is_nan t = false →
      ∃ text : string, @UtilsDates.toISOString sample_dates t = Returned text)
  ∧ @UtilsDates.formatDate sample_dates (UtilsDates.DateString "soon")
    = Returned EmptyString.
Proof.
  assert (∀ t : float, PrimFloat.is_nan t = false →
            ∃ text : string,
              @UtilsDates.toISOString sample_dates t = Returned text)
    as Hruntime.
  { intros t Ht. simpl. rewrite Ht. eauto. }
  split; [exact Hruntime|].
  apply (proj1 (proj2 (@formatDate_never_throws sample_dates
                         UtilsDates.DateNull "soon" Hruntime))).
  reflexivity.
Defined.

(** ** From the paste box to the two sets *)

(** X22. No pasted line is lost.  When the paste box hands rows over for
    the bulk page's headers, the valid set and the error set of
    [handleParse] together hold exactly one row per line of the text that
    is not blank. *)
Theorem paste_loses_no_line `{Platform} (text : string) (rows : list obj) :
  PasteTable.handleParse text HEADERS = Some rows →
  length (handleParse rows).1 + length (handleParse rows).2
  = length (nonempty_lines text).
Proof.
  rewrite PasteTable_handleParse.
  destruct (nonempty_lines text) as [|line lines] eqn:Hlines;
    [discriminate|].
  intros Hrows. injection Hrows as <-.
  rewrite parseDelimitedText_map, Hlines.
  unfold handleParse. rewrite handleParse_loop_app. cbn [fst snd app].
  rewrite length_map.
  rewrite (filter_split_length (λ p, isValid (validate p))).
  rewrite !length_map. reflexivity.
Qed.

Lemma paste_loses_no_line_witness :
  PasteTable.handleParse two_titles HEADERS
  = Some (parseDelimitedText two_titles HEADERS)
  ∧ length (@handleParse sample_platform
              (parseDelimitedText two_titles HEADERS)).1
    + length (@handleParse sample_platform
                (parseDelimitedText two_titles HEADERS)).2
    = length (nonempty_lines two_titles).
Proof.
  assert (PasteTable.handleParse two_titles HEADERS
          = Some (parseDelimitedText two_titles HEADERS)) as Hrows
    by reflexivity.
  split; [exact Hrows|].
  exact (@paste_loses_no_line sample_platform two_titles _ Hrows).
Defined.
